(** * Derived fields of the Mongoose models: a shallow embedding

    The repository declares seven Mongoose schemas.  The behaviour of its own
    is in the [pre('save')] hooks and the virtual getters of
    [src/models/mongoose/Review.js], [Category.js], [Post.js], [Tag.js],
    [User.js] and of the Order model ([src/unnamed/part_002]), together with
    the statics [getTree], [getDescendants] and [findOrCreate].  Each hook is
    embedded below as
    a function from the document (and what it reads from outside: the clock,
    the Category collection) to the outcome it hands to [next]. *)

From Stdlib Require Import ZArith NArith List String Ascii Bool Lia.
From Stdlib Require Import Floats.
From Stdlib Require Import Decimal DecimalString DecimalPos DecimalZ.
From stdpp Require Import gmap.
Import ListNotations.

Local Open Scope N_scope.

(** ** JavaScript values used by the hooks *)

(** A JavaScript string is a sequence of UTF-16 code units. *)
Abbreviation jsstring := (list N).

(** An ASCII literal, as code units. *)
Definition lit (s : string) : jsstring :=
  List.map N_of_ascii (list_ascii_of_string s).

(** MongoDB object ids; only their identity matters here. *)
Abbreviation ObjectId := N.

(** [!x] for a string-valued path: [undefined] and the empty string are
    falsy. *)
Definition falsyStr (o : option jsstring) : bool :=
  match o with
  | None => true
  | Some [] => true
  | Some _ => false
  end.

(** [a || b] on string-valued paths. *)
Definition orStr (a b : option jsstring) : option jsstring :=
  if falsyStr a then b else a.

(** What a template literal [`${x}`] and [x + '...'] make of a string-valued
    path: [undefined] is rendered as the text "undefined". *)
Definition toStr (o : option jsstring) : jsstring :=
  match o with
  | Some s => s
  | None => lit "undefined"
  end.

(** [x?.length || 0] on an array-valued path. *)
Definition lengthOr0 {A} (o : option (list A)) : Z :=
  match o with
  | Some l => Z.of_nat (length l)
  | None => 0%Z
  end.

(** [x || 0] on a Number: zero is the only falsy integer. *)
Definition orZero (z : Z) : Z :=
  if (z =? 0)%Z then 0%Z else z.

(** [x || 0] on a Number-valued path that may be [undefined]. *)
Definition numOr0 (o : option Z) : Z :=
  match o with
  | Some z => orZero z
  | None => 0%Z
  end.

(** A Number that arithmetic is done on is an IEEE 754 double: the
    primitive [float].  Its falsy values are [0], [-0] and [NaN]. *)
Definition falsyNumber (x : float) : bool :=
  (x =? 0)%float || negb (x =? x)%float.

(** [x || 0] on a double. *)
Definition numberOr0 (x : float) : float :=
  if falsyNumber x then 0%float else x.

(** The integer a double holds, when it holds one: on the sign, mantissa
    and exponent of the double, and on the double itself. *)
Definition integerOf (f : spec_float) : option Z :=
  match f with
  | S754_zero _ => Some 0%Z
  | S754_finite s m e =>
      let v :=
        if (0 <=? e)%Z then Some (Z.pos m * 2 ^ e)%Z
        else if (Z.pos m mod 2 ^ (- e) =? 0)%Z
             then Some (Z.pos m / 2 ^ (- e))%Z
             else None in
      if s then option_map Z.opp v else v
  | _ => None
  end.

Definition integerValue (x : float) : option Z :=
  integerOf (Prim2SF x).

(** The value of a finite double of mantissa [m] and exponent [e], times
    2^1074: an integer, as no exponent is below -1074. *)
Definition scaled (m : positive) (e : Z) : Z :=
  (Z.pos m * 2 ^ (e + 1074))%Z.

(** The array behind an array-valued path, [undefined] read as no entries
    ([x || []]). *)
Definition orEmpty {A} (o : option (list A)) : list A :=
  match o with
  | Some l => l
  | None => []
  end.

(** Decimal rendering of an integral Number, as string concatenation
    ([+ Date.now()]) produces it for the values a clock returns. *)
Definition decimal (z : Z) : jsstring :=
  lit (NilZero.string_of_int (Z.to_int z)).

(** *** Character classes *)

Definition hyphen : N := 45.
Definition slash : N := 47.

(** The class [[a-z0-9]]. *)
Definition isLowerAlnum (c : N) : bool :=
  ((97 <=? c) && (c <=? 122)) || ((48 <=? c) && (c <=? 57)).

(** The code units a generated slug is made of: [[a-z0-9]] and the hyphen. *)
Definition isSlugUnit (c : N) : bool :=
  isLowerAlnum c || (c =? hyphen).

(** The class [\s] of a regular expression, which is also what
    [String.prototype.trim] removes: ECMAScript's WhiteSpace and
    LineTerminator code points. *)
Definition isWhiteSpace (c : N) : bool :=
  ((9 <=? c) && (c <=? 13)) || (c =? 32) || (c =? 160) || (c =? 5760)
  || ((8192 <=? c) && (c <=? 8202)) || (c =? 8232) || (c =? 8233)
  || (c =? 8239) || (c =? 8287) || (c =? 12288) || (c =? 65279).

(** *** [String.prototype.trim] *)

Fixpoint trimStart (s : jsstring) : jsstring :=
  match s with
  | [] => []
  | c :: s' => if isWhiteSpace c then trimStart s' else s
  end.

Definition trimEnd (s : jsstring) : jsstring :=
  rev (trimStart (rev s)).

Definition trim (s : jsstring) : jsstring :=
  trimEnd (trimStart s).

(** *** [split(/\s+/)]

    The scanner keeps the piece being read ([cur], reversed) and whether it
    stands inside a separator match.  A maximal run of white space is one
    separator; a separator at either end of the text leaves an empty piece
    there, and the empty text splits into one empty piece. *)
Fixpoint splitWs (cur : jsstring) (inSep : bool) (s : jsstring) : list jsstring :=
  match s with
  | [] => [rev cur]
  | c :: s' =>
      if isWhiteSpace c then
        if inSep then splitWs [] true s' else rev cur :: splitWs [] true s'
      else splitWs (c :: cur) false s'
  end.

Definition splitWhitespace (s : jsstring) : list jsstring :=
  splitWs [] false s.

(** [word => word.length > 0] *)
Definition nonEmptyWord (w : jsstring) : bool :=
  match w with
  | [] => false
  | _ :: _ => true
  end.

(** [Math.ceil(n / d)] for a count [n]: the quotient of two integers that a
    double holds exactly is rounded to the nearest double, which lies on the
    same side of every integer, so the result is the integer ceiling. *)
Definition ceilDiv (n d : Z) : Z :=
  (- ((- n) / d))%Z.

(** ** Slugs (Category.js 179-184, Tag.js 118-123 and 145, Post.js 320-325) *)

Module Slug.

(** [replace(/[^a-z0-9]+/g, '-')]: every maximal run of code units outside
    [[a-z0-9]] becomes one hyphen.  [inRun] tells that the run the scanner
    stands in has already been replaced. *)
Fixpoint replaceRuns (inRun : bool) (s : jsstring) : jsstring :=
  match s with
  | [] => []
  | c :: s' =>
      if isLowerAlnum c then c :: replaceRuns false s'
      else if inRun then replaceRuns true s'
      else hyphen :: replaceRuns true s'
  end.

(** The alternative [^-] of [/(^-|-$)/g]: one hyphen at the start. *)
Definition stripLeadingHyphen (s : jsstring) : jsstring :=
  match s with
  | c :: s' => if c =? hyphen then s' else s
  | [] => []
  end.

(** The alternative [-$]: one hyphen at the end. *)
Fixpoint stripTrailingHyphen (s : jsstring) : jsstring :=
  match s with
  | [] => []
  | [c] => if c =? hyphen then [] else [c]
  | c :: s' => c :: stripTrailingHyphen s'
  end.

(** [replace(/(^-|-$)/g, '')]: the match at the start is found first; the
    match at the end is looked for in what follows it. *)
Definition stripEdgeHyphens (s : jsstring) : jsstring :=
  stripTrailingHyphen (stripLeadingHyphen s).

Section Runtime.

(** [String.prototype.toLowerCase]: the case mapping is the runtime's. *)
Variable toLowerCase : jsstring -> jsstring.

(** [text.toLowerCase().replace(/[^a-z0-9]+/g, '-').replace(/(^-|-$)/g, '')] *)
Definition slugify (text : jsstring) : jsstring :=
  stripEdgeHyphens (replaceRuns false (toLowerCase text)).

(** The setters of a [slug] path ([lowercase: true, trim: true]), which run
    on every assignment to it. *)
Definition castSlug (v : jsstring) : jsstring :=
  toLowerCase (trim v).

End Runtime.

End Slug.

(** The case mapping restricted to ASCII: [A-Z] to [a-z], every other code
    unit kept.  It agrees with the runtime on ASCII text. *)
Definition asciiLowerCase (s : jsstring) : jsstring :=
  List.map (fun c => if (65 <=? c) && (c <=? 90) then c + 32 else c) s.


(** ** Saving a document *)

(** Errors, as the specification names them (its section 7).  The hooks of
    the source construct none of them; a failed [required] or length
    validator of a schema path is reported under the matching kind.
    [range_bound], which the specification does not name, is the kind of a
    failed [min] validator of a Number. *)
Inductive ErrorKind :=
  | required_field
  | length_bound
  | duplicate
  | invalid_reference
  | target_mismatch
  | range_bound.

Inductive Error :=
  | ValidationError (kind : ErrorKind)
  | NotFound
  | StoreUnavailable.

(** What a [pre('save')] hook hands over: [next()] lets the write go on with
    the document as the hook left it, [next(err)] aborts the save. *)
Inductive HookResult (D : Type) :=
  | Next (doc : D)
  | NextError (err : Error).

Arguments Next {D} doc.
Arguments NextError {D} err.

(** [doc.save()]: Mongoose runs the validators of the schema paths first,
    then the schema's [pre('save')] hook, and writes when both let it.  Each
    model below gives the validators of the paths its record holds. *)
Definition save {D} (validate : D -> option Error)
    (preSave : D -> HookResult D) (doc : D) : HookResult D :=
  match validate doc with
  | Some err => NextError err
  | None => preSave doc
  end.

(** Change tracking of a document, as the hooks query it. *)
Record DocState := {
  isNew : bool;
  modifiedPaths : list string
}.

(** [this.isModified(path)] for a top-level path. *)
Definition isModified (st : DocState) (path : string) : bool :=
  existsb (String.eqb path) (modifiedPaths st).

(** ** Review (src/models/mongoose/Review.js) *)

Module Review.

(** [enum: ['product', 'post', 'user', 'order']] *)
Inductive TargetType :=
  | target_product
  | target_post
  | target_user
  | target_order.

(** [enum: ['helpful', 'not_helpful']] *)
Inductive VoteType :=
  | helpful
  | not_helpful.

(** [enum: ['customer', 'seller', 'admin']] *)
Inductive AuthorType :=
  | customer
  | seller
  | admin.

Definition isHelpful (t : VoteType) : bool :=
  match t with helpful => true | not_helpful => false end.

Definition isNotHelpful (t : VoteType) : bool :=
  match t with helpful => false | not_helpful => true end.

Definition isSeller (a : AuthorType) : bool :=
  match a with seller => true | _ => false end.

(** [voteSchema] *)
Module Vote.
Record t := {
  user : ObjectId;
  type : VoteType
}.
End Vote.

(** [replySchema], the paths the hook reads and the reply's own votes. *)
Module Reply.
Record t := {
  author : ObjectId;
  authorType : AuthorType;
  isOfficial : bool;
  votes : list Vote.t
}.
End Reply.

(** An entry of [flags]. *)
Module Flag.
Record t := {
  user : option ObjectId;
  description : option jsstring
}.
End Flag.

(** [reviewSchema]: the target paths, the nested collections and the
    counters derived from them. *)
Record t := {
  targetType : option TargetType;
  product : option ObjectId;
  post : option ObjectId;
  order : option ObjectId;
  targetUser : option ObjectId;
  votes : option (list Vote.t);
  helpfulCount : Z;
  notHelpfulCount : Z;
  helpfulnessScore : Z;
  replies : option (list Reply.t);
  replyCount : Z;
  hasSellerReply : bool;
  flags : option (list Flag.t);
  flagCount : Z
}.

(** The validators of the target paths: [targetType] is required (its enum
    is the type [TargetType]); [product], [post], [order] and [targetUser]
    are optional references with no validator. *)
Definition validate (r : t) : option Error :=
  match targetType r with
  | None => Some (ValidationError required_field)
  | Some _ => None
  end.

(** [this.replies?.some(f) || false] *)
Definition someOrFalse {A} (f : A -> bool) (o : option (list A)) : bool :=
  match o with
  | Some l => existsb f l
  | None => false
  end.

(** [reviewSchema.pre('save')], lines 240-250. *)
Definition preSave (r : t) : HookResult t :=
  let helpfulCount' :=
    lengthOr0 (List.filter (fun v => isHelpful (Vote.type v)) <$> votes r) in
  let notHelpfulCount' :=
    lengthOr0 (List.filter (fun v => isNotHelpful (Vote.type v)) <$> votes r) in
  Next {|
    targetType := targetType r;
    product := product r;
    post := post r;
    order := order r;
    targetUser := targetUser r;
    votes := votes r;
    helpfulCount := helpfulCount';
    notHelpfulCount := notHelpfulCount';
    helpfulnessScore := (helpfulCount' - notHelpfulCount')%Z;
    replies := replies r;
    replyCount := lengthOr0 (replies r);
    hasSellerReply :=
      someOrFalse
        (fun reply => isSeller (Reply.authorType reply) || Reply.isOfficial reply)
        (replies r);
    flags := flags r;
    flagCount := lengthOr0 (flags r)
  |}.

(** The check the specification describes under the name [validateTarget]:
    exactly one of [product], [post], [targetUser], [order] is set, and it is
    the one [targetType] names.  The source has no such function; this
    definition only states what the specification asks for. *)
Definition specTargetCheck (r : t) : bool :=
  match targetType r, product r, post r, targetUser r, order r with
  | Some target_product, Some _, None, None, None => true
  | Some target_post, None, Some _, None, None => true
  | Some target_user, None, None, Some _, None => true
  | Some target_order, None, None, None, Some _ => true
  | _, _, _, _, _ => false
  end.

End Review.

(** ** Category (src/models/mongoose/Category.js) *)

Module Category.

(** [categorySchema]: the paths of the hierarchy.  A document's [_id] is the
    key under which the collection holds it. *)
Record t := {
  name : jsstring;
  slug : option jsstring;
  parent : option ObjectId;
  ancestors : option (list ObjectId);
  level : Z;
  path : option jsstring
}.

(** [this.constructor.findById(id)] on the Category collection. *)
Definition findById (categories : gmap ObjectId t) (id : ObjectId) : option t :=
  categories !! id.

Section Runtime.

Variable toLowerCase : jsstring -> jsstring.

(** Lines 178-184: the slug is generated when the name was set and no slug
    is there. *)
Definition generateSlug (st : DocState) (c : t) : t :=
  if isModified st "name" && falsyStr (slug c) then
    {| name := name c;
       slug := Some (Slug.castSlug toLowerCase (Slug.slugify toLowerCase (name c)));
       parent := parent c;
       ancestors := ancestors c;
       level := level c;
       path := path c |}
  else c.

(** Lines 186-200: ancestors, level and path follow the parent when the
    parent was set. *)
Definition updateHierarchy (st : DocState) (categories : gmap ObjectId t)
    (c : t) : t :=
  if isModified st "parent" then
    match parent c with
    | Some parentId =>
        match findById categories parentId with
        | Some parentCategory =>
            {| name := name c;
               slug := slug c;
               parent := parent c;
               ancestors := Some (orEmpty (ancestors parentCategory) ++ [parentId]);
               level := (level parentCategory + 1)%Z;
               path :=
                 Some (toStr (orStr (path parentCategory) (slug parentCategory))
                       ++ [slash] ++ toStr (slug c)) |}
        | None => c
        end
    | None =>
        {| name := name c;
           slug := slug c;
           parent := parent c;
           ancestors := Some [];
           level := 0%Z;
           path := slug c |}
    end
  else c.

(** [categorySchema.pre('save')], lines 177-203. *)
Definition preSave (st : DocState) (categories : gmap ObjectId t)
    (c : t) : HookResult t :=
  Next (updateHierarchy st categories (generateSlug st c)).

End Runtime.

(** The validators of [name]: required, at least 2 and at most 100 code
    units. *)
Definition validate (c : t) : option Error :=
  match name c with
  | [] => Some (ValidationError required_field)
  | _ =>
      if (length (name c) <? 2)%nat || (100 <? length (name c))%nat
      then Some (ValidationError length_bound)
      else None
  end.

(** [categorySchema.virtual('isRoot')], lines 148-150: [!this.parent]. *)
Definition isRoot (c : t) : bool :=
  match parent c with
  | None => true
  | Some _ => false
  end.

(** [categorySchema.virtual('fullPath')], lines 153-155:
    [this.path || this.slug]. *)
Definition fullPath (c : t) : option jsstring :=
  orStr (path c) (slug c).

(** [categorySchema.statics.getDescendants], lines 229-231: the query
    [{ ancestors: categoryId }] matches the documents whose [ancestors]
    array holds the id; the result is given as the documents by [_id]. *)
Definition getDescendants (categories : gmap ObjectId t)
    (categoryId : ObjectId) : gmap ObjectId t :=
  filter (fun entry => categoryId ∈ orEmpty (ancestors entry.2)) categories.

(** A node of the tree [getTree] returns: the document ([...cat.toObject()],
    with its [_id]) and its [children]. *)
#[warnings="-register-all"]
Inductive Tree :=
  | Node (id : ObjectId) (doc : t) (children : list Tree).

(** [String(cat.parent) === String(parentId)]: both are an id or null. *)
Definition sameParent (a b : option ObjectId) : bool :=
  bool_decide (a = b).

(** [buildTree], lines 217-224, over the documents [categories] the query of
    [getTree] returned, each with its [_id].  The recursion of the source is
    unbounded; [fuel] bounds its depth, and [None] tells that the bound was
    reached. *)
Fixpoint buildTree (fuel : nat) (categories : list (ObjectId * t))
    (parentId : option ObjectId) : option (list Tree) :=
  match fuel with
  | O => None
  | S fuel' =>
      mapM (fun entry => Node entry.1 entry.2 <$> buildTree fuel' categories (Some entry.1))
           (List.filter (fun entry => sameParent (parent entry.2) parentId) categories)
  end.

(** [categorySchema.statics.getTree], lines 214-227: [buildTree(null)] over
    [active], the result of
    [find({ status: 'active' }).sort({ level: 1, displayOrder: 1 })].  The
    depth allowed is one more than the number of documents, which is enough
    whenever their ids are distinct. *)
Definition getTree (active : list (ObjectId * t)) : option (list Tree) :=
  buildTree (S (length active)) active None.

(** The ids of the nodes of a tree, parents before children. *)
Fixpoint nodeIds (tr : Tree) : list ObjectId :=
  match tr with
  | Node id _ children => id :: flat_map nodeIds children
  end.

(** The node a tree starts with. *)
Definition rootEntry (tr : Tree) : ObjectId * t :=
  match tr with
  | Node id doc _ => (id, doc)
  end.

(** All the nodes of a tree, itself first. *)
Fixpoint subtrees (tr : Tree) : list Tree :=
  match tr with
  | Node _ _ children => tr :: flat_map subtrees children
  end.

(** The children of a node, by their first nodes. *)
Definition childEntries (tr : Tree) : list (ObjectId * t) :=
  match tr with
  | Node _ _ children => List.map rootEntry children
  end.

(** [descends categories top id n]: the document [id] is among [categories]
    and [n] steps along [parent] lead from it to [top], through documents
    of [categories]. *)
Inductive descends (categories : list (ObjectId * t)) (top : option ObjectId) :
    ObjectId -> nat -> Prop :=
  | descends_child id c :
      In (id, c) categories -> parent c = top ->
      descends categories top id 1
  | descends_step id c p n :
      In (id, c) categories -> parent c = Some p ->
      descends categories top p n ->
      descends categories top id (S n).

(** [category.name = newName], the assignment of a new name (the [trim]
    setter of the path applied). *)
Definition setName (newName : jsstring) (c : t) : t :=
  {| name := trim newName;
     slug := slug c;
     parent := parent c;
     ancestors := ancestors c;
     level := level c;
     path := path c |}.

(** The invariant the hook maintains between [level] and [ancestors]. *)
Definition levelMatchesAncestors (c : t) : Prop :=
  level c = Z.of_nat (length (orEmpty (ancestors c))).

End Category.

(** ** Tag (src/models/mongoose/Tag.js) *)

Module Tag.

Module Stats.
Record t := {
  productCount : option Z;
  postCount : option Z;
  totalUsage : Z
}.
End Stats.

(** [enum: ['product', 'post', 'general']] *)
Inductive TagType :=
  | product_tag
  | post_tag
  | general.

Record t := {
  name : jsstring;
  slug : option jsstring;
  type : TagType;
  stats : Stats.t
}.

(** The validators of [name]: required, at least 2 and at most 50 code
    units. *)
Definition validate (g : t) : option Error :=
  match name g with
  | [] => Some (ValidationError required_field)
  | _ =>
      if (length (name g) <? 2)%nat || (50 <? length (name g))%nat
      then Some (ValidationError length_bound)
      else None
  end.

(** [this.findOne({ slug })]: a stored tag with this slug, the first by
    [_id] when there are several. *)
Definition findOneBySlug (tags : gmap ObjectId t) (s : jsstring) : option t :=
  snd <$> head (map_to_list (filter (fun entry => slug entry.2 = Some s) tags)).

(** Change tracking of the document [create] builds from a name, a slug and
    a type. *)
Definition created : DocState :=
  {| isNew := true; modifiedPaths := ["name"%string; "slug"%string; "type"%string] |}.

Section Runtime.

Variable toLowerCase : jsstring -> jsstring.

(** [tagSchema.pre('save')], lines 117-129. *)
Definition preSave (st : DocState) (g : t) : HookResult t :=
  Next {|
    name := name g;
    slug :=
      if isModified st "name" && falsyStr (slug g)
      then Some (Slug.castSlug toLowerCase (Slug.slugify toLowerCase (name g)))
      else slug g;
    type := type g;
    stats :=
      {| Stats.productCount := Stats.productCount (stats g);
         Stats.postCount := Stats.postCount (stats g);
         Stats.totalUsage :=
           (numOr0 (Stats.productCount (stats g))
            + numOr0 (Stats.postCount (stats g)))%Z |}
  |}.

(** [this.create({ name, slug, type })]: the document built from the three
    values (the setters of [name] and [slug] applied, the counters at their
    defaults) is saved and stored under [newId], the id the driver gave it.
    The unique index on [slug] refuses a slug some stored tag has. *)
Definition create (tags : gmap ObjectId t) (newId : ObjectId)
    (name' slug' : jsstring) (type' : TagType) : HookResult (t * gmap ObjectId t) :=
  let doc :=
    {| name := trim name';
       slug := Some (Slug.castSlug toLowerCase slug');
       type := type';
       stats := {| Stats.productCount := Some 0%Z;
                   Stats.postCount := Some 0%Z;
                   Stats.totalUsage := 0%Z |} |} in
  match save validate (preSave created) doc with
  | Next saved =>
      match slug saved ≫= findOneBySlug tags with
      | Some _ => NextError (ValidationError duplicate)
      | None => Next (saved, <[newId := saved]> tags)
      end
  | NextError err => NextError err
  end.

(** [tagSchema.statics.findOrCreate], lines 144-151. *)
Definition findOrCreate (tags : gmap ObjectId t) (newId : ObjectId)
    (name' : jsstring) (type' : TagType) : HookResult (t * gmap ObjectId t) :=
  let slug' := Slug.slugify toLowerCase name' in
  match findOneBySlug tags slug' with
  | Some tag => Next (tag, tags)
  | None => create tags newId name' slug' type'
  end.

End Runtime.

End Tag.

(** ** Post (src/models/mongoose/Post.js) *)

Module Post.

(** [reactionSchema]; [kind] numbers the entries of its [type] enum. *)
Module Reaction.
Record t := {
  user : ObjectId;
  kind : N
}.
End Reaction.

(** [replySchema] *)
Module Reply.
Record t := {
  author : ObjectId;
  content : jsstring;
  reactions : list Reaction.t
}.
End Reply.

(** [commentSchema] *)
Module Comment.
Record t := {
  author : ObjectId;
  content : jsstring;
  reactions : list Reaction.t;
  replies : list Reply.t
}.
End Comment.

(** The [stats] sub-document. *)
Module Stats.
Record t := {
  views : Z;
  uniqueViews : Z;
  readTime : Z;
  reactionsCount : Z;
  commentsCount : Z;
  sharesCount : Z;
  bookmarksCount : Z
}.
End Stats.

(** [postSchema]: the paths the hook and the [wordCount] virtual touch. *)
Record t := {
  title : jsstring;
  slug : option jsstring;
  content : option jsstring;
  excerpt : option jsstring;
  reactions : option (list Reaction.t);
  comments : option (list Comment.t);
  stats : Stats.t
}.

(** The setter of [content] ([trim: true]): every value assigned to the path
    is stored trimmed. *)
Definition castContent (v : jsstring) : jsstring :=
  trim v.

(** The validators of [title] (required, 3 to 200 code units) and of
    [content] (required: a string that is not empty). *)
Definition validate (p : t) : option Error :=
  match title p, content p with
  | [], _ => Some (ValidationError required_field)
  | _, None => Some (ValidationError required_field)
  | _, Some [] => Some (ValidationError required_field)
  | _, Some _ =>
      if (length (title p) <? 3)%nat || (200 <? length (title p))%nat
      then Some (ValidationError length_bound)
      else None
  end.

(** [postSchema.virtual('wordCount')], lines 273-276. *)
Definition wordCount (p : t) : Z :=
  if falsyStr (content p) then 0%Z
  else Z.of_nat (length (List.filter nonEmptyWord (splitWhitespace (toStr (content p))))).

Section Runtime.

Variable toLowerCase : jsstring -> jsstring.

(** Lines 319-325: the slug is the slugified title, a hyphen and
    [Date.now()]. *)
Definition generateSlug (st : DocState) (now : Z) (p : t) : option jsstring :=
  if isModified st "title" && falsyStr (slug p) then
    Some (Slug.castSlug toLowerCase
            (Slug.slugify toLowerCase (title p) ++ [hyphen] ++ decimal now))
  else slug p.

(** Lines 327-330: [this.content?.substring(0, 300) + '...']. *)
Definition generateExcerpt (st : DocState) (p : t) : option jsstring :=
  if isModified st "content" && falsyStr (excerpt p) then
    Some (toStr (firstn 300 <$> content p) ++ lit "...")
  else excerpt p.

(** Lines 332-336: [this.content?.split(/\s+/).length || 0] words, 200 to the
    minute. *)
Definition computeReadTime (st : DocState) (p : t) : Z :=
  if isModified st "content" then
    let wordCount := lengthOr0 (splitWhitespace <$> content p) in
    ceilDiv wordCount 200
  else Stats.readTime (stats p).

(** [postSchema.pre('save')], lines 318-343. *)
Definition preSave (st : DocState) (now : Z) (p : t) : HookResult t :=
  Next {|
    title := title p;
    slug := generateSlug st now p;
    content := content p;
    excerpt := generateExcerpt st p;
    reactions := reactions p;
    comments := comments p;
    stats :=
      {| Stats.views := Stats.views (stats p);
         Stats.uniqueViews := Stats.uniqueViews (stats p);
         Stats.readTime := computeReadTime st p;
         Stats.reactionsCount := lengthOr0 (reactions p);
         Stats.commentsCount := lengthOr0 (comments p);
         Stats.sharesCount := Stats.sharesCount (stats p);
         Stats.bookmarksCount := Stats.bookmarksCount (stats p) |}
  |}.

End Runtime.

(** The collision the specification speaks of for [uniqueSlug]: some stored
    Post already has this slug.  The hook never asks; the definition only
    states what the specification makes the disambiguator depend on. *)
Definition slugInUse (posts : gmap ObjectId t) (s : jsstring) : Prop :=
  exists id p, posts !! id = Some p /\ slug p = Some s.

(** [postSchema.virtual('totalEngagement')], lines 266-270. *)
Definition totalEngagement (p : t) : Z :=
  (orZero (Stats.reactionsCount (stats p))
   + orZero (Stats.commentsCount (stats p))
   + orZero (Stats.sharesCount (stats p)))%Z.

(** [postSchema.virtual('reactionBreakdown')], lines 279-285: the object
    that maps a reaction type to the number of reactions of that type, built
    by [breakdown[r.type] = (breakdown[r.type] || 0) + 1]. *)
Definition reactionBreakdown (p : t) : gmap N Z :=
  fold_left
    (fun breakdown r =>
       <[Reaction.kind r := (numOr0 (breakdown !! Reaction.kind r) + 1)%Z]> breakdown)
    (orEmpty (reactions p)) ∅.

(** The sum of the counts of a breakdown. *)
Definition breakdownTotal (breakdown : gmap N Z) : Z :=
  map_fold (fun _ count total => (count + total)%Z) 0%Z breakdown.

End Post.

(** ** Order (src/unnamed/part_002) *)

Module Order.

(** [orderItemSchema], lines 10-43: of its paths, the ones the hook and the
    validators below read.  [quantity] is a [Number], a double: the schema
    asks for no whole number and sets no upper bound. *)
Module Item.
Record t := {
  product : ObjectId;
  sku : jsstring;
  quantity : float
}.
End Item.

Record t := {
  orderNumber : option jsstring;
  items : option (list Item.t);
  itemCount : float
}.

(** The validators of an item, lines 14-15: [sku] is [required], [quantity]
    is [required] with [min: 1].  A quantity that is not a number gets no
    further either: it is refused when the path is cast, and is reported
    here with the quantities below 1. *)
Definition validateItem (item : Item.t) : option Error :=
  match Item.sku item with
  | [] => Some (ValidationError required_field)
  | _ =>
      if (1 <=? Item.quantity item)%float then None
      else Some (ValidationError range_bound)
  end.

(** The validators of the paths of the record: [orderNumber] is [required]
    (lines 158-162), and every item is validated (line 171).  The other
    required paths of the two schemas are taken to be there. *)
Definition validate (o : t) : option Error :=
  if falsyStr (orderNumber o) then Some (ValidationError required_field)
  else head (omap validateItem (orEmpty (items o))).

(** [items.reduce((sum, item) => sum + item.quantity, acc)]: the quantities
    are added one after the other, in the order of the array, each addition
    rounding to a double. *)
Definition reduceQuantities (acc : float) (l : list Item.t) : float :=
  fold_left (fun sum item => (sum + Item.quantity item)%float) l acc.

(** [this.items?.reduce((sum, item) => sum + item.quantity, 0) || 0], the
    expression of both the [totalQuantity] virtual and the hook. *)
Definition quantityOr0 (o : option (list Item.t)) : float :=
  match o with
  | Some l => numberOr0 (reduceQuantities 0%float l)
  | None => 0%float
  end.

(** [orderSchema.virtual('totalQuantity')], lines 302-304. *)
Definition totalQuantity (o : t) : float :=
  quantityOr0 (items o).

(** [orderSchema.pre('save')], lines 349-359.  [now] is [Date.now()] and
    [token] the text of
    [Math.random().toString(36).substr(2, 9).toUpperCase()]. *)
Definition preSave (st : DocState) (now : Z) (token : jsstring)
    (o : t) : HookResult t :=
  Next {|
    orderNumber :=
      if isNew st && falsyStr (orderNumber o)
      then Some (lit "ORD-" ++ decimal now ++ [hyphen] ++ token)
      else orderNumber o;
    items := items o;
    itemCount := quantityOr0 (items o)
  |}.

(** The sum of the quantities of a list of items as the doubles make it:
    from [0], adding the quantity of the first item, then of the second,
    and so on. *)
Fixpoint sumFrom (acc : float) (l : list Item.t) : float :=
  match l with
  | [] => acc
  | item :: rest => sumFrom (acc + Item.quantity item)%float rest
  end.

Definition sumQuantities (l : list Item.t) : float :=
  sumFrom 0%float l.

(** The sum of the quantities as integers, when every quantity is one. *)
Definition exactQuantity (l : list Item.t) : option Z :=
  fold_right
    (fun item total =>
       match integerValue (Item.quantity item), total with
       | Some q, Some t => Some (q + t)%Z
       | _, _ => None
       end)
    (Some 0%Z) l.

End Order.

(** ** User (src/models/mongoose/User.js) *)

Module User.

(** The [profile] sub-document: the two names. *)
Module Profile.
Record t := {
  firstName : option jsstring;
  lastName : option jsstring
}.
End Profile.

(** [x || ''] on a string-valued path. *)
Definition orBlank (o : option jsstring) : jsstring :=
  match o with
  | Some s => s
  | None => []
  end.

(** [userSchema.virtual('profile.fullName')], lines 184-186:
    [`${this.profile?.firstName || ''} ${this.profile?.lastName || ''}`.trim()]. *)
Definition fullName (profile : option Profile.t) : jsstring :=
  trim (orBlank (profile ≫= Profile.firstName) ++ [32]
        ++ orBlank (profile ≫= Profile.lastName)).

End User.

(** ** Shapes of strings, used to state what the string functions produce *)

(** The text is made of [[a-z0-9]] and single hyphens: no two hyphens are
    adjacent, and none comes first when [afterHyphen] is set. *)
Fixpoint hyphenated (afterHyphen : bool) (s : jsstring) : bool :=
  match s with
  | [] => true
  | c :: s' =>
      if isLowerAlnum c then hyphenated false s'
      else (c =? hyphen) && negb afterHyphen && hyphenated true s'
  end.

Definition startsWithHyphen (s : jsstring) : bool :=
  match s with
  | c :: _ => c =? hyphen
  | [] => false
  end.

Fixpoint endsWithHyphen (s : jsstring) : bool :=
  match s with
  | [] => false
  | [c] => c =? hyphen
  | _ :: s' => endsWithHyphen s'
  end.

Definition startsWithWs (s : jsstring) : bool :=
  match s with
  | c :: _ => isWhiteSpace c
  | [] => false
  end.

Fixpoint endsWithWs (s : jsstring) : bool :=
  match s with
  | [] => false
  | [c] => isWhiteSpace c
  | _ :: s' => endsWithWs s'
  end.

(** Equality of vote types is decidable. *)
Definition VoteType_eq_dec (a b : Review.VoteType) : {a = b} + {a <> b}.
Proof. decide equality. Defined.

(** ** Concrete documents *)

Module Examples.

(** A new document whose constructor was given a name only. *)
Definition createdWithName : DocState :=
  {| isNew := true; modifiedPaths := ["name"%string] |}.

(** A new document whose constructor was given a name and a parent. *)
Definition createdWithParent : DocState :=
  {| isNew := true; modifiedPaths := ["name"%string; "parent"%string] |}.

(** [new Category({ name: 'Electronics' })]: the other paths hold their
    schema defaults. *)
Definition electronicsDraft : Category.t :=
  {| Category.name := lit "Electronics";
     Category.slug := None;
     Category.parent := None;
     Category.ancestors := Some [];
     Category.level := 0%Z;
     Category.path := None |}.

(** The same category as its first save leaves it. *)
Definition electronics : Category.t :=
  {| Category.name := lit "Electronics";
     Category.slug := Some (lit "electronics");
     Category.parent := None;
     Category.ancestors := Some [];
     Category.level := 0%Z;
     Category.path := None |}.

(** [new Category({ name: 'Electronics', parent: null })], saved. *)
Definition electronicsRoot : Category.t :=
  {| Category.name := lit "Electronics";
     Category.slug := Some (lit "electronics");
     Category.parent := None;
     Category.ancestors := Some [];
     Category.level := 0%Z;
     Category.path := Some (lit "electronics") |}.

(** [new Category({ name: 'Phones', parent: 1 })] *)
Definition phonesDraft : Category.t :=
  {| Category.name := lit "Phones";
     Category.slug := None;
     Category.parent := Some 1;
     Category.ancestors := Some [];
     Category.level := 0%Z;
     Category.path := None |}.

Definition phones : Category.t :=
  {| Category.name := lit "Phones";
     Category.slug := Some (lit "phones");
     Category.parent := Some 1;
     Category.ancestors := Some [1];
     Category.level := 1%Z;
     Category.path := Some (lit "electronics/phones") |}.

(** Phones as a save leaves it when no Category has id 1. *)
Definition phonesOrphan : Category.t :=
  {| Category.name := lit "Phones";
     Category.slug := Some (lit "phones");
     Category.parent := Some 1;
     Category.ancestors := Some [];
     Category.level := 0%Z;
     Category.path := None |}.

(** A product review whose reference sits in [post]. *)
Definition mismatchedReview : Review.t :=
  {| Review.targetType := Some Review.target_product;
     Review.product := None;
     Review.post := Some 7;
     Review.order := None;
     Review.targetUser := None;
     Review.votes := Some [];
     Review.helpfulCount := 0%Z;
     Review.notHelpfulCount := 0%Z;
     Review.helpfulnessScore := 0%Z;
     Review.replies := Some [];
     Review.replyCount := 0%Z;
     Review.hasSellerReply := false;
     Review.flags := Some [];
     Review.flagCount := 0%Z |}.

Definition zeroStats : Post.Stats.t :=
  {| Post.Stats.views := 0%Z;
     Post.Stats.uniqueViews := 0%Z;
     Post.Stats.readTime := 0%Z;
     Post.Stats.reactionsCount := 0%Z;
     Post.Stats.commentsCount := 0%Z;
     Post.Stats.sharesCount := 0%Z;
     Post.Stats.bookmarksCount := 0%Z |}.

(** A new Post given a title and a content. *)
Definition createdPost : DocState :=
  {| isNew := true; modifiedPaths := ["title"%string; "content"%string] |}.

Definition helloDraft : Post.t :=
  {| Post.title := lit "Hello World";
     Post.slug := None;
     Post.content := Some (Post.castContent (lit "  hello brave new world "));
     Post.excerpt := None;
     Post.reactions := Some [];
     Post.comments := Some [];
     Post.stats := zeroStats |}.

(** The time of the save, in milliseconds. *)
Definition saveTime : Z := 1700000000000%Z.

(** A Post whose only comment carries two reactions and a reply. *)
Definition commentedPost : Post.t :=
  {| Post.title := lit "Hello World";
     Post.slug := Some (lit "hello-world");
     Post.content := Some (lit "hello");
     Post.excerpt := Some (lit "hello");
     Post.reactions := Some [];
     Post.comments :=
       Some [ {| Post.Comment.author := 3;
                 Post.Comment.content := lit "nice";
                 Post.Comment.reactions :=
                   [ {| Post.Reaction.user := 4; Post.Reaction.kind := 0 |};
                     {| Post.Reaction.user := 5; Post.Reaction.kind := 1 |} ];
                 Post.Comment.replies :=
                   [ {| Post.Reply.author := 4;
                        Post.Reply.content := lit "thanks";
                        Post.Reply.reactions := [] |} ] |} ];
     Post.stats := zeroStats |}.

Definition item (q : float) : Order.Item.t :=
  {| Order.Item.product := 9; Order.Item.sku := lit "SKU"; Order.Item.quantity := q |}.

(** An Order as a caller creates it: with its order number, and [itemCount]
    at its default. *)
Definition newOrder (l : list Order.Item.t) : Order.t :=
  {| Order.orderNumber := Some (lit "ORD-1001");
     Order.items := Some l;
     Order.itemCount := 0%float |}.

(** An Order created without an order number. *)
Definition unnumberedOrder (l : list Order.Item.t) : Order.t :=
  {| Order.orderNumber := None;
     Order.items := Some l;
     Order.itemCount := 0%float |}.

(** 2^53, the first double whose successor is 2 away. *)
Definition twoTo53 : float := 9007199254740992%float.

Definition createdOrder : DocState :=
  {| isNew := true; modifiedPaths := ["items"%string] |}.

(** A category whose parent, 9, is not a stored category. *)
Definition strayCategory : Category.t :=
  {| Category.name := lit "Stray";
     Category.slug := Some (lit "stray");
     Category.parent := Some 9;
     Category.ancestors := Some [];
     Category.level := 0%Z;
     Category.path := None |}.

(** Cases under Phones. *)
Definition cases : Category.t :=
  {| Category.name := lit "Cases";
     Category.slug := Some (lit "cases");
     Category.parent := Some 2;
     Category.ancestors := Some [1; 2];
     Category.level := 2%Z;
     Category.path := Some (lit "electronics/phones/cases") |}.

(** The active categories, as the query of [getTree] returns them. *)
Definition activeCategories : list (ObjectId * Category.t) :=
  [(1, electronicsRoot); (3, strayCategory); (2, phones); (4, cases)].

(** The tag [findOrCreate] stores for the name "Summer Sale!". *)
Definition summerTag : Tag.t :=
  {| Tag.name := lit "Summer Sale!";
     Tag.slug := Some (lit "summer-sale");
     Tag.type := Tag.general;
     Tag.stats := {| Tag.Stats.productCount := Some 0%Z;
                     Tag.Stats.postCount := Some 0%Z;
                     Tag.Stats.totalUsage := 0%Z |} |}.

(** A document loaded from the collection and not touched since. *)
Definition unmodified : DocState :=
  {| isNew := false; modifiedPaths := [] |}.

End Examples.

(** * Properties *)

(** ** The slug transformation *)

Lemma isLowerAlnum_not_hyphen c : isLowerAlnum c = true -> (c =? hyphen) = false.
Proof.
  unfold isLowerAlnum, hyphen. intros H.
  apply N.eqb_neq. intros ->. discriminate H.
Qed.

Lemma isSlugUnit_not_ws c : isSlugUnit c = true -> isWhiteSpace c = false.
Proof.
  unfold isSlugUnit, isLowerAlnum, isWhiteSpace, hyphen. intros H.
  repeat rewrite orb_true_iff in H. repeat rewrite andb_true_iff in H.
  repeat rewrite N.leb_le in H. rewrite N.eqb_eq in H.
  repeat rewrite orb_false_iff. repeat rewrite andb_false_iff.
  repeat rewrite N.leb_gt. repeat rewrite N.eqb_neq.
  lia.
Qed.

Lemma replaceRuns_units b s : forallb isSlugUnit (Slug.replaceRuns b s) = true.
Proof.
  revert b. induction s as [|c s IH]; intros b; simpl; [reflexivity|].
  destruct (isLowerAlnum c) eqn:Hc.
  - simpl. unfold isSlugUnit at 1. rewrite Hc. simpl. apply IH.
  - destruct b; [apply IH|]. simpl. apply IH.
Qed.

Lemma replaceRuns_hyphenated b s : hyphenated b (Slug.replaceRuns b s) = true.
Proof.
  revert b. induction s as [|c s IH]; intros b; simpl; [reflexivity|].
  destruct (isLowerAlnum c) eqn:Hc.
  - simpl. rewrite Hc. apply IH.
  - destruct b; [apply IH|]. simpl. apply IH.
Qed.

Lemma replaceRuns_fixes b s : hyphenated b s = true -> Slug.replaceRuns b s = s.
Proof.
  revert b. induction s as [|c s IH]; intros b; simpl; [reflexivity|].
  destruct (isLowerAlnum c) eqn:Hc.
  - intros H. f_equal. now apply IH.
  - intros H. apply andb_true_iff in H as [H Hs].
    apply andb_true_iff in H as [Hc' Hb].
    apply N.eqb_eq in Hc'. subst c.
    destruct b; [discriminate Hb|]. f_equal. now apply IH.
Qed.

Lemma hyphenated_weaken s : hyphenated true s = true -> hyphenated false s = true.
Proof.
  destruct s as [|c s]; simpl; [reflexivity|].
  destruct (isLowerAlnum c); [trivial|]. rewrite andb_false_r. discriminate.
Qed.

Lemma hyphenated_true_start s : hyphenated true s = true -> startsWithHyphen s = false.
Proof.
  destruct s as [|c s]; simpl; [reflexivity|].
  destruct (isLowerAlnum c) eqn:Hc.
  - intros _. now apply isLowerAlnum_not_hyphen.
  - rewrite andb_false_r. discriminate.
Qed.

Lemma stripLeading_hyphenated s :
  hyphenated false s = true ->
  hyphenated false (Slug.stripLeadingHyphen s) = true
  /\ startsWithHyphen (Slug.stripLeadingHyphen s) = false.
Proof.
  destruct s as [|c s]; [intros _; split; reflexivity|].
  intros H. unfold Slug.stripLeadingHyphen.
  destruct (c =? hyphen) eqn:Hc.
  - simpl in H. destruct (isLowerAlnum c) eqn:Ha.
    + apply isLowerAlnum_not_hyphen in Ha. congruence.
    + rewrite Hc in H. simpl in H.
      split; [now apply hyphenated_weaken | now apply hyphenated_true_start].
  - split; [exact H | exact Hc].
Qed.

Lemma stripTrailing_nil s : Slug.stripTrailingHyphen s = [] -> s = [] \/ s = [hyphen].
Proof.
  destruct s as [|c [|c' s]]; simpl; [now left| |discriminate].
  destruct (c =? hyphen) eqn:Hc; [|discriminate].
  apply N.eqb_eq in Hc. subst. now right.
Qed.

Lemma stripTrailing_hyphenated b s :
  hyphenated b s = true -> hyphenated b (Slug.stripTrailingHyphen s) = true.
Proof.
  revert b. induction s as [|c s IH]; intros b H; [reflexivity|].
  destruct s as [|c' s'].
  - simpl. destruct (c =? hyphen); [reflexivity | exact H].
  - change (Slug.stripTrailingHyphen (c :: c' :: s'))
      with (c :: Slug.stripTrailingHyphen (c' :: s')).
    simpl in H |- *. destruct (isLowerAlnum c).
    + now apply IH.
    + apply andb_true_iff in H as [H Hs]. rewrite H. simpl. now apply IH.
Qed.

Lemma stripTrailing_start s :
  startsWithHyphen s = false -> startsWithHyphen (Slug.stripTrailingHyphen s) = false.
Proof.
  destruct s as [|c [|c' s]]; simpl; trivial.
  intros H. rewrite H. exact H.
Qed.

Lemma stripTrailing_end b s :
  hyphenated b s = true -> endsWithHyphen (Slug.stripTrailingHyphen s) = false.
Proof.
  revert b. induction s as [|c s IH]; intros b H; [reflexivity|].
  destruct s as [|c' s'].
  - simpl. destruct (c =? hyphen) eqn:Hc; simpl; [reflexivity | exact Hc].
  - change (Slug.stripTrailingHyphen (c :: c' :: s'))
      with (c :: Slug.stripTrailingHyphen (c' :: s')).
    assert (Hrest : exists b', hyphenated b' (c' :: s') = true
                               /\ (b' = true \/ (c =? hyphen) = false)).
    { simpl in H. destruct (isLowerAlnum c) eqn:Ha.
      - exists false. split; [exact H|]. right. now apply isLowerAlnum_not_hyphen.
      - apply andb_true_iff in H as [_ Hs]. exists true. split; [exact Hs | now left]. }
    destruct Hrest as (b' & Hs & Hb).
    destruct (Slug.stripTrailingHyphen (c' :: s')) as [|d ds] eqn:Hst.
    + apply stripTrailing_nil in Hst as [Hst | Hst]; [discriminate|].
      injection Hst as -> ->. simpl.
      destruct Hb as [-> | Hb]; [|exact Hb].
      simpl in Hs. discriminate Hs.
    + change (endsWithHyphen (c :: d :: ds)) with (endsWithHyphen (d :: ds)).
      now apply (IH b').
Qed.

Lemma stripLeading_fixes s : startsWithHyphen s = false -> Slug.stripLeadingHyphen s = s.
Proof. destruct s as [|c s]; simpl; [reflexivity|]. now intros ->. Qed.

Lemma stripTrailing_fixes s : endsWithHyphen s = false -> Slug.stripTrailingHyphen s = s.
Proof.
  induction s as [|c s IH]; [reflexivity|].
  destruct s as [|c' s'].
  - simpl. now intros ->.
  - intros H. change (Slug.stripTrailingHyphen (c :: c' :: s'))
      with (c :: Slug.stripTrailingHyphen (c' :: s')).
    f_equal. apply IH. exact H.
Qed.

Lemma forallb_stripLeading P s :
  forallb P s = true -> forallb P (Slug.stripLeadingHyphen s) = true.
Proof.
  destruct s as [|c s]; simpl; [trivial|].
  intros H. destruct (c =? hyphen); [|exact H].
  now apply andb_true_iff in H as [_ H].
Qed.

Lemma forallb_stripTrailing P s :
  forallb P s = true -> forallb P (Slug.stripTrailingHyphen s) = true.
Proof.
  induction s as [|c s IH]; [trivial|].
  destruct s as [|c' s'].
  - simpl. destruct (c =? hyphen); [reflexivity | trivial].
  - intros H. change (Slug.stripTrailingHyphen (c :: c' :: s'))
      with (c :: Slug.stripTrailingHyphen (c' :: s')).
    simpl in H. apply andb_true_iff in H as [Hc H].
    simpl. rewrite Hc. simpl. apply IH. exact H.
Qed.

(** What the two [replace] calls leave, whatever text they are given: slug
    units only, single hyphens, none at either end. *)
Lemma slug_shape s :
  let u := Slug.stripEdgeHyphens (Slug.replaceRuns false s) in
  forallb isSlugUnit u = true
  /\ hyphenated false u = true
  /\ startsWithHyphen u = false
  /\ endsWithHyphen u = false.
Proof.
  unfold Slug.stripEdgeHyphens. simpl.
  pose proof (replaceRuns_units false s) as Hu.
  pose proof (replaceRuns_hyphenated false s) as Hh.
  destruct (stripLeading_hyphenated _ Hh) as [Hh' Hs].
  repeat split.
  - now apply forallb_stripTrailing, forallb_stripLeading.
  - now apply stripTrailing_hyphenated.
  - now apply stripTrailing_start.
  - now apply stripTrailing_end with (b := false).
Qed.

Lemma slug_shape_fixed u :
  hyphenated false u = true ->
  startsWithHyphen u = false ->
  endsWithHyphen u = false ->
  Slug.stripEdgeHyphens (Slug.replaceRuns false u) = u.
Proof.
  intros Hh Hs He. unfold Slug.stripEdgeHyphens.
  rewrite (replaceRuns_fixes false u Hh).
  rewrite (stripLeading_fixes u Hs).
  now apply stripTrailing_fixes.
Qed.

(** ** White space and decimal digits *)

Lemma trimStart_fixes s : startsWithWs s = false -> trimStart s = s.
Proof. destruct s as [|c s]; simpl; [reflexivity|]. now intros ->. Qed.

Lemma trim_without_ws s :
  (forall c, In c s -> isWhiteSpace c = false) -> trim s = s.
Proof.
  intros H. unfold trim, trimEnd.
  assert (Hstart : forall t, (forall c, In c t -> isWhiteSpace c = false) ->
                             startsWithWs t = false).
  { intros [|c t] Ht; [reflexivity|]. simpl. apply Ht. now left. }
  rewrite (trimStart_fixes s (Hstart s H)).
  rewrite trimStart_fixes.
  - apply rev_involutive.
  - apply Hstart. intros c Hc. apply H. now apply in_rev.
Qed.

Lemma trim_slug_units s : forallb isSlugUnit s = true -> trim s = s.
Proof.
  intros H. apply trim_without_ws. intros c Hc.
  apply isSlugUnit_not_ws. revert c Hc. now apply forallb_forall.
Qed.

Lemma uint_units d : forallb isSlugUnit (lit (NilEmpty.string_of_uint d)) = true.
Proof. induction d; simpl; try reflexivity; exact IHd. Qed.

Lemma decimal_units z : forallb isSlugUnit (decimal z) = true.
Proof.
  unfold decimal, NilZero.string_of_int, NilZero.string_of_uint.
  destruct (Z.to_int z) as [d|d]; destruct d; try reflexivity;
    try exact (uint_units (D0 d)); try exact (uint_units (D1 d));
    try exact (uint_units (D2 d)); try exact (uint_units (D3 d));
    try exact (uint_units (D4 d)); try exact (uint_units (D5 d));
    try exact (uint_units (D6 d)); try exact (uint_units (D7 d));
    try exact (uint_units (D8 d)); try exact (uint_units (D9 d)).
Qed.

Lemma asciiLowerCase_slug_units s :
  forallb isSlugUnit s = true -> asciiLowerCase s = s.
Proof.
  unfold asciiLowerCase. induction s as [|c s IH]; simpl; [reflexivity|].
  intros H. apply andb_true_iff in H as [Hc Hs]. rewrite (IH Hs). f_equal.
  destruct ((65 <=? c) && (c <=? 90)) eqn:Hup; [|reflexivity].
  exfalso. revert Hc Hup. unfold isSlugUnit, isLowerAlnum, hyphen.
  repeat rewrite orb_true_iff. repeat rewrite andb_true_iff.
  repeat rewrite N.leb_le. rewrite N.eqb_eq. lia.
Qed.

(** ** Properties that depend on the runtime's case mapping *)

Section SlugProperties.

Variable toLowerCase : jsstring -> jsstring.

(** Lower-casing leaves a text of [a-z], [0-9] and hyphens as it is. *)
Hypothesis toLowerCase_slug_units :
  forall s, forallb isSlugUnit s = true -> toLowerCase s = s.

(** C5. Slug generation, as Tag.js and Category.js write it
    ([toLowerCase], every run outside [a-z0-9] replaced by one hyphen, one
    hyphen stripped at either end), is idempotent: applied to its own output
    it returns that output. *)
Theorem slugify_idempotent (s : jsstring) :
  Slug.slugify toLowerCase (Slug.slugify toLowerCase s)
  = Slug.slugify toLowerCase s.
Proof using toLowerCase_slug_units.
  unfold Slug.slugify at 1.
  destruct (slug_shape (toLowerCase s)) as (Hu & Hh & Hs & He).
  fold (Slug.slugify toLowerCase s) in Hu, Hh, Hs, He.
  rewrite (toLowerCase_slug_units _ Hu).
  now apply slug_shape_fixed.
Qed.

Lemma castSlug_slug_units s :
  forallb isSlugUnit s = true -> Slug.castSlug toLowerCase s = s.
Proof using toLowerCase_slug_units.
  intros H. unfold Slug.castSlug. rewrite (trim_slug_units s H).
  now apply toLowerCase_slug_units.
Qed.

Lemma slugify_units s : forallb isSlugUnit (Slug.slugify toLowerCase s) = true.
Proof. apply (slug_shape (toLowerCase s)). Qed.

(** The slug a Category or a Tag is given is the slug transformation of its
    name: the setters of the [slug] path leave it as generated. *)
Lemma category_slug_generated (st : DocState) (c : Category.t) :
  isModified st "name" = true ->
  falsyStr (Category.slug c) = true ->
  Category.slug (Category.generateSlug toLowerCase st c)
  = Some (Slug.slugify toLowerCase (Category.name c)).
Proof using toLowerCase_slug_units.
  intros Hm Hs. unfold Category.generateSlug. rewrite Hm, Hs. simpl.
  f_equal. apply castSlug_slug_units, slugify_units.
Qed.

Lemma tag_slug_generated (st : DocState) (g : Tag.t) :
  isModified st "name" = true ->
  falsyStr (Tag.slug g) = true ->
  exists g',
    Tag.preSave toLowerCase st g = Next g'
    /\ Tag.slug g' = Some (Slug.slugify toLowerCase (Tag.name g)).
Proof using toLowerCase_slug_units.
  intros Hm Hs. eexists. split; [reflexivity|]. simpl. rewrite Hm, Hs. simpl.
  f_equal. apply castSlug_slug_units, slugify_units.
Qed.

(** C4, as the code has it. A Post saved with its title set and no slug (so
    every Post created without an explicit slug) gets the slugified title
    followed by a hyphen and the timestamp [Date.now()] of the save; the
    timestamp is appended always, whether or not the bare slug is in use. *)
Theorem post_slug_timestamped (st : DocState) (now : Z) (p : Post.t) :
  isModified st "title" = true ->
  falsyStr (Post.slug p) = true ->
  exists p',
    Post.preSave toLowerCase st now p = Next p'
    /\ Post.slug p'
       = Some (Slug.slugify toLowerCase (Post.title p) ++ [hyphen] ++ decimal now).
Proof using toLowerCase_slug_units.
  intros Hm Hs. eexists. split; [reflexivity|]. simpl.
  unfold Post.generateSlug. rewrite Hm, Hs. simpl. f_equal.
  apply castSlug_slug_units.
  rewrite forallb_app. rewrite slugify_units. simpl.
  apply decimal_units.
Qed.

End SlugProperties.

(** ** Trimmed text and its words *)

Lemma trimStart_start s : startsWithWs (trimStart s) = false.
Proof.
  induction s as [|c s IH]; simpl; [reflexivity|].
  destruct (isWhiteSpace c) eqn:Hc; [exact IH | exact Hc].
Qed.

Lemma trimStart_app_last l c :
  isWhiteSpace c = false -> trimStart (l ++ [c]) = trimStart l ++ [c].
Proof.
  intros Hc. induction l as [|a l IH]; simpl.
  - now rewrite Hc.
  - destruct (isWhiteSpace a); [exact IH | reflexivity].
Qed.

Lemma endsWithWs_app_last l c : endsWithWs (l ++ [c]) = isWhiteSpace c.
Proof.
  induction l as [|a l IH]; [reflexivity|].
  rewrite <- IH. simpl. destruct (l ++ [c]) eqn:E; [|reflexivity].
  now destruct l.
Qed.

Lemma endsWithWs_rev z : startsWithWs z = false -> endsWithWs (rev z) = false.
Proof.
  destruct z as [|c z]; [reflexivity|]. simpl. intros Hc.
  now rewrite endsWithWs_app_last.
Qed.

Lemma trimEnd_start y : startsWithWs y = false -> startsWithWs (trimEnd y) = false.
Proof.
  destruct y as [|c y]; [reflexivity|]. simpl. intros Hc.
  unfold trimEnd. simpl. rewrite (trimStart_app_last _ _ Hc).
  rewrite rev_unit. exact Hc.
Qed.

(** What the [trim] setter stores has no white space at either end. *)
Lemma trim_shape raw :
  startsWithWs (trim raw) = false /\ endsWithWs (trim raw) = false.
Proof.
  unfold trim. split.
  - apply trimEnd_start, trimStart_start.
  - unfold trimEnd. apply endsWithWs_rev, trimStart_start.
Qed.

Lemma nonEmptyWord_rev cur : cur <> [] -> nonEmptyWord (rev cur) = true.
Proof.
  destruct cur as [|c cur]; [congruence|]. intros _. simpl.
  now destruct (rev cur).
Qed.

Lemma endsWithWs_tail c s : endsWithWs (c :: s) = false -> endsWithWs s = false.
Proof. destruct s; [reflexivity | trivial]. Qed.

(** Once a word has begun, or inside a separator that is not the end of the
    text, [split] yields no empty piece, provided the text does not end in
    white space. *)
Lemma splitWs_pieces s : forall cur inSep,
  endsWithWs s = false ->
  cur <> [] \/ (inSep = true /\ s <> []) ->
  forallb nonEmptyWord (splitWs cur inSep s) = true.
Proof.
  induction s as [|c s IH]; intros cur inSep He Hst.
  - simpl. destruct Hst as [Hc | [_ Hs]]; [|congruence].
    now rewrite nonEmptyWord_rev.
  - simpl. destruct (isWhiteSpace c) eqn:Hc.
    + assert (Hs : s <> []) by (intros ->; simpl in He; congruence).
      apply endsWithWs_tail in He.
      destruct inSep.
      * apply IH; [exact He | now right].
      * destruct Hst as [Hcur | [Hin _]]; [|discriminate].
        simpl. rewrite (nonEmptyWord_rev cur Hcur). simpl.
        apply IH; [exact He | now right].
    + apply IH; [now apply endsWithWs_tail in He | now left].
Qed.

Lemma splitWhitespace_trimmed s :
  s <> [] -> startsWithWs s = false -> endsWithWs s = false ->
  forallb nonEmptyWord (splitWhitespace s) = true.
Proof.
  destruct s as [|c s]; [congruence|]. intros _ Hc He.
  unfold splitWhitespace. simpl in Hc |- *. rewrite Hc.
  apply splitWs_pieces; [now apply endsWithWs_tail in He | now left].
Qed.

Lemma filter_all {A} (f : A -> bool) l : forallb f l = true -> List.filter f l = l.
Proof.
  induction l as [|a l IH]; simpl; [reflexivity|].
  intros H. apply andb_true_iff in H as [Ha Hl]. rewrite Ha. f_equal. now apply IH.
Qed.

(** On a text that is not empty and has no white space at either end, the
    pieces the hook counts are the words the [wordCount] virtual counts. *)
Lemma words_of_trimmed s :
  s <> [] -> startsWithWs s = false -> endsWithWs s = false ->
  List.filter nonEmptyWord (splitWhitespace s) = splitWhitespace s.
Proof. intros. now apply filter_all, splitWhitespace_trimmed. Qed.

Lemma falsyStr_nonempty s : s <> [] -> falsyStr (Some s) = false.
Proof. destruct s; [congruence | reflexivity]. Qed.

Section PostProperties.

Variable toLowerCase : jsstring -> jsstring.


End PostProperties.

(** ** Category: the hierarchy paths *)

Section CategoryProperties.

Variable toLowerCase : jsstring -> jsstring.


(** C3, as the code has it. A save whose [parent] names an id with no
    Category document does not fail for it: the hook skips the recomputation
    and lets the write go on, with [parent] as given and [ancestors],
    [level] and [path] as they were. *)
Theorem category_missing_parent_saved (st : DocState)
    (categories : gmap ObjectId Category.t) (c : Category.t)
    (parentId : ObjectId) :
  Category.validate c = None ->
  Category.parent c = Some parentId ->
  Category.findById categories parentId = None ->
  exists c',
    save Category.validate (Category.preSave toLowerCase st categories) c = Next c'
    /\ Category.parent c' = Some parentId
    /\ Category.ancestors c' = Category.ancestors c
    /\ Category.level c' = Category.level c
    /\ Category.path c' = Category.path c.
Proof.
  intros Hv Hp Hf. unfold save. rewrite Hv.
  eexists. split; [reflexivity|].
  assert (H1 : Category.parent (Category.generateSlug toLowerCase st c) = Some parentId
               /\ Category.ancestors (Category.generateSlug toLowerCase st c)
                  = Category.ancestors c
               /\ Category.level (Category.generateSlug toLowerCase st c)
                  = Category.level c
               /\ Category.path (Category.generateSlug toLowerCase st c)
                  = Category.path c).
  { unfold Category.generateSlug.
    destruct (isModified st "name" && falsyStr (Category.slug c)); simpl; auto. }
  destruct H1 as (Hp1 & Ha1 & Hl1 & Hpa1).
  unfold Category.updateHierarchy.
  destruct (isModified st "parent"); [|auto].
  rewrite Hp1, Hf. auto.
Qed.

End CategoryProperties.

(** ** Review: the target paths and the counters *)

(** C1, as the code has it. No target-validation step runs before the write
    of a Review: a save never fails with [target_mismatch]; the validators of
    the target paths only ask for [targetType] to be present, and when it is
    the hook lets the write go on, whichever of [product], [post],
    [targetUser] and [order] are set, and leaves the five paths as they
    were. *)
Theorem review_save_ignores_target (r : Review.t) :
  save Review.validate Review.preSave r
  <> NextError (ValidationError target_mismatch)
  /\ (forall target,
        Review.targetType r = Some target ->
        exists r',
          save Review.validate Review.preSave r = Next r'
          /\ Review.targetType r' = Review.targetType r
          /\ Review.product r' = Review.product r
          /\ Review.post r' = Review.post r
          /\ Review.targetUser r' = Review.targetUser r
          /\ Review.order r' = Review.order r).
Proof.
  unfold save, Review.validate. split.
  - destruct (Review.targetType r); discriminate.
  - intros target Ht. rewrite Ht. eexists. split; [reflexivity|].
    simpl. auto.
Qed.

Lemma count_votes (ty : Review.VoteType) (f : Review.VoteType -> bool)
    (l : list Review.Vote.t) :
  (forall a, f a = true <-> a = ty) ->
  length (List.filter (fun v => f (Review.Vote.type v)) l)
  = count_occ VoteType_eq_dec (List.map Review.Vote.type l) ty.
Proof.
  intros Hf. induction l as [|v l IH]; simpl; [reflexivity|].
  destruct (VoteType_eq_dec (Review.Vote.type v) ty) as [E|E].
  - apply Hf in E. rewrite E. simpl. now f_equal.
  - destruct (f (Review.Vote.type v)) eqn:Ef; [|exact IH].
    apply Hf in Ef. contradiction.
Qed.

(** C6. After any save of a Review, the Review has the votes, the replies
    and the flags it was saved with, [helpfulCount] is the number of votes of
    type helpful, [notHelpfulCount] the number of votes of type not_helpful,
    [helpfulnessScore] their difference, [replyCount] the number of replies,
    [hasSellerReply] holds exactly when some reply is a seller's or is
    official, and [flagCount] is the number of flags; an absent or empty
    collection counts as zero. *)
Theorem review_counts_after_save (r : Review.t) :
  exists r',
    Review.preSave r = Next r'
    /\ Review.votes r' = Review.votes r
    /\ Review.replies r' = Review.replies r
    /\ Review.flags r' = Review.flags r
    /\ Review.helpfulCount r'
       = Z.of_nat (count_occ VoteType_eq_dec
                     (List.map Review.Vote.type (orEmpty (Review.votes r')))
                     Review.helpful)
    /\ Review.notHelpfulCount r'
       = Z.of_nat (count_occ VoteType_eq_dec
                     (List.map Review.Vote.type (orEmpty (Review.votes r')))
                     Review.not_helpful)
    /\ Review.helpfulnessScore r'
       = (Review.helpfulCount r' - Review.notHelpfulCount r')%Z
    /\ Review.replyCount r' = Z.of_nat (length (orEmpty (Review.replies r')))
    /\ (Review.hasSellerReply r' = true <->
        exists reply,
          In reply (orEmpty (Review.replies r'))
          /\ (Review.Reply.authorType reply = Review.seller
              \/ Review.Reply.isOfficial reply = true))
    /\ Review.flagCount r' = Z.of_nat (length (orEmpty (Review.flags r'))).
Proof.
  eexists. split; [reflexivity|]. simpl.
  assert (Hh : forall a, Review.isHelpful a = true <-> a = Review.helpful)
    by (intros []; simpl; split; congruence).
  assert (Hn : forall a, Review.isNotHelpful a = true <-> a = Review.not_helpful)
    by (intros []; simpl; split; congruence).
  repeat split.
  - destruct (Review.votes r) as [l|]; simpl; [|reflexivity].
    now rewrite (count_votes Review.helpful Review.isHelpful l Hh).
  - destruct (Review.votes r) as [l|]; simpl; [|reflexivity].
    now rewrite (count_votes Review.not_helpful Review.isNotHelpful l Hn).
  - now destruct (Review.replies r).
  - destruct (Review.replies r) as [l|]; simpl; [|discriminate].
    intros H. apply existsb_exists in H as (reply & Hin & H).
    exists reply. split; [exact Hin|].
    apply orb_true_iff in H as [H|H]; [left | now right].
    now destruct (Review.Reply.authorType reply).
  - intros (reply & Hin & H).
    destruct (Review.replies r) as [l|]; simpl in *; [|contradiction].
    apply existsb_exists. exists reply. split; [exact Hin|].
    apply orb_true_iff. destruct H as [-> | ->]; [now left | now right].
  - now destruct (Review.flags r).
Qed.

(** ** Post: the top-level tallies *)

(** C7. After any save of a Post, the Post has the comments and the
    reactions it was saved with, [stats.commentsCount] is the length of the
    top-level [comments] list and [stats.reactionsCount] the length of the
    top-level [reactions] list; what is nested inside a comment is not
    counted, and an absent or empty list counts as zero. *)
Theorem post_counts_after_save (toLowerCase : jsstring -> jsstring)
    (st : DocState) (now : Z) (p : Post.t) :
  exists p',
    Post.preSave toLowerCase st now p = Next p'
    /\ Post.comments p' = Post.comments p
    /\ Post.reactions p' = Post.reactions p
    /\ Post.Stats.commentsCount (Post.stats p')
       = Z.of_nat (length (orEmpty (Post.comments p')))
    /\ Post.Stats.reactionsCount (Post.stats p')
       = Z.of_nat (length (orEmpty (Post.reactions p'))).
Proof.
  eexists. split; [reflexivity|]. simpl.
  split; [reflexivity|]. split; [reflexivity|]. split.
  - now destruct (Post.comments p).
  - now destruct (Post.reactions p).
Qed.

(** ** Doubles that hold natural numbers *)

(** The addition of doubles is the one of IEEE 754, which the library
    specifies on signs, mantissas and exponents ([SF64add]): the mantissas
    are aligned and added, and the sum is rounded to 53 bits, to the nearest,
    ties to even.  Below: when the two doubles hold natural numbers whose
    sum is at most 2^53, the rounding has nothing to round. *)

Section Doubles.

Local Open Scope Z_scope.

(** The number of bits of a mantissa. *)
Lemma digits2_pos_log2 m : Z.pos (digits2_pos m) = Z.log2 (Z.pos m) + 1.
Proof.
  induction m as [m IH|m IH|]; [| |reflexivity].
  - cbn [digits2_pos]. rewrite Pos2Z.inj_succ, IH.
    change (Z.pos m~1) with (2 * Z.pos m + 1).
    rewrite Z.log2_succ_double by lia. lia.
  - cbn [digits2_pos]. rewrite Pos2Z.inj_succ, IH.
    change (Z.pos m~0) with (2 * Z.pos m).
    rewrite Z.log2_double by lia. lia.
Qed.

(** Aligning a mantissa to a smaller exponent appends zero bits. *)
Lemma iter_xO m p : Z.pos (Pos.iter xO m p) = Z.pos m * 2 ^ Z.pos p.
Proof.
  rewrite (Pos.iter_swap_gen _ _ Z.pos xO (Z.mul 2)) by reflexivity.
  change (Pos.iter (Z.mul 2) (Z.pos m) p) with (Z.shiftl (Z.pos m) (Z.pos p)).
  now rewrite Z.shiftl_mul_pow2 by lia.
Qed.

(** Shifting zero bits out of a mantissa loses nothing. *)
Lemma shr_1_even k :
  0 < k ->
  shr_1 {| shr_m := k * 2; shr_r := false; shr_s := false |}
  = {| shr_m := k; shr_r := false; shr_s := false |}.
Proof.
  destruct k as [|q|q]; try lia. intros _.
  rewrite Z.mul_comm. reflexivity.
Qed.

Lemma iter_shr_1 p : forall k,
  0 < k ->
  SpecFloat.iter_pos shr_1 p {| shr_m := k * 2 ^ Z.pos p; shr_r := false; shr_s := false |}
  = {| shr_m := k; shr_r := false; shr_s := false |}.
Proof.
  induction p as [p IH|p IH|]; intros k Hk; cbn [SpecFloat.iter_pos].
  - replace (k * 2 ^ Z.pos p~1) with (k * 2 ^ Z.pos p * 2 ^ Z.pos p * 2).
    2:{ replace (Z.pos p~1) with (Z.pos p + Z.pos p + 1) by lia.
        rewrite !Z.pow_add_r by lia. change (2 ^ 1) with 2. ring. }
    rewrite shr_1_even by nia.
    rewrite IH by nia. now rewrite IH.
  - replace (k * 2 ^ Z.pos p~0) with (k * 2 ^ Z.pos p * 2 ^ Z.pos p).
    2:{ replace (Z.pos p~0) with (Z.pos p + Z.pos p) by lia.
        rewrite Z.pow_add_r by lia. ring. }
    rewrite IH by nia. now rewrite IH.
  - change (2 ^ 1) with 2. now apply shr_1_even.
Qed.

Lemma pow2_pos n : 0 <= n -> 0 < 2 ^ n.
Proof. intros. now apply Z.pow_pos_nonneg. Qed.

(** Rounding a positive integer value of at most 2^53 changes nothing. *)
Lemma binary_round_exact (M : positive) (e S : Z) :
  -1074 <= e ->
  1 <= S <= 2 ^ 53 ->
  scaled M e = S * 2 ^ 1074 ->
  exists m' e',
    binary_round prec emax false M e = S754_finite false m' e'
    /\ -1074 <= e'
    /\ scaled m' e' = S * 2 ^ 1074.
Proof.
  intros He HS Hsc. unfold scaled in Hsc.
  set (d := Z.pos (digits2_pos M) + e).
  assert (Hd : d = Z.log2 S + 1).
  { unfold d. rewrite digits2_pos_log2.
    assert (Hl : Z.log2 (Z.pos M * 2 ^ (e + 1074)) = Z.log2 (S * 2 ^ 1074))
      by now rewrite Hsc.
    rewrite !Z.log2_mul_pow2 in Hl by lia. lia. }
  assert (Hd1 : 1 <= d <= 54).
  { pose proof (Z.log2_nonneg S).
    pose proof (Z.log2_le_mono S (2 ^ 53) ltac:(lia)) as Hle.
    rewrite Z.log2_pow2 in Hle by lia. lia. }
  assert (Hfexp : fexp prec emax d = d - 53).
  { unfold fexp, emin, prec, emax. lia. }
  unfold binary_round. fold d. rewrite Hfexp.
  unfold shl_align.
  destruct (d - 53 - e) as [|p|p] eqn:Hshift.
  - (* the exponent is already the canonical one *)
    unfold binary_round_aux, shr_fexp. cbn [Zdigits2 shr_record_of_loc].
    fold d. rewrite Hfexp, Hshift. cbn [shr shr_m loc_of_shr_record round_nearest_even Zdigits2].
    fold d. rewrite Hfexp, Hshift. cbn [shr shr_m].
    assert (Hle : (e <=? emax - prec) = true) by (apply Z.leb_le; unfold emax, prec; lia).
    rewrite Hle. exists M, e. repeat split; [lia | exact Hsc].
  - (* the mantissa is shifted to the right, over zeros only *)
    assert (Hdiv : exists k, 0 < k /\ Z.pos M = k * 2 ^ Z.pos p).
    { assert (He0 : e <= 0) by lia.
      assert (HM : Z.pos M = S * 2 ^ (- e)).
      { apply (Z.mul_cancel_r _ _ (2 ^ (e + 1074))); [pose proof (pow2_pos (e + 1074)); lia|].
        rewrite Hsc, <- Z.mul_assoc, <- Z.pow_add_r by lia. f_equal. f_equal. lia. }
      destruct (Z.eq_dec d 54) as [E|E].
      - assert (S = 2 ^ 53).
        { pose proof (Z.log2_spec S ltac:(lia)) as Hspec.
          replace (Z.log2 S) with 53 in Hspec by lia. lia. }
        subst S. exists (2 ^ 52). split; [now apply pow2_pos|].
        rewrite HM, <- !Z.pow_add_r by lia. f_equal. lia.
      - exists (S * 2 ^ (- e - Z.pos p)). split.
        + pose proof (pow2_pos (- e - Z.pos p)). nia.
        + rewrite HM, <- Z.mul_assoc, <- Z.pow_add_r by lia. f_equal. f_equal. lia. }
    destruct Hdiv as (k & Hk & HMk).
    destruct k as [|k|k]; try lia.
    unfold binary_round_aux, shr_fexp. cbn [Zdigits2 shr_record_of_loc].
    fold d. rewrite Hfexp, Hshift. cbn [shr]. rewrite HMk, iter_shr_1 by exact Hk.
    cbn [shr_m loc_of_shr_record round_nearest_even Zdigits2].
    assert (Hdk : Z.pos (digits2_pos k) + (e + Z.pos p) = d).
    { unfold d. rewrite !digits2_pos_log2, HMk, Z.log2_mul_pow2 by lia. lia. }
    rewrite Hdk, Hfexp.
    replace (d - 53 - (e + Z.pos p)) with 0 by lia. cbn [shr shr_m].
    assert (Hle : (e + Z.pos p <=? emax - prec) = true)
      by (apply Z.leb_le; unfold emax, prec; lia).
    rewrite Hle. exists k, (e + Z.pos p). repeat split; [lia|].
    unfold scaled. rewrite <- Hsc, HMk, <- Z.mul_assoc, <- Z.pow_add_r by lia.
    f_equal. f_equal. lia.
  - (* the mantissa is shifted to the left *)
    unfold binary_round_aux, shr_fexp. cbn [Zdigits2 shr_record_of_loc].
    assert (Hdz : Z.pos (digits2_pos (Pos.iter xO M p)) + (d - 53) = d).
    { assert (Hdd : d = Z.log2 (Z.pos M) + 1 + e)
        by (unfold d; now rewrite digits2_pos_log2).
      rewrite digits2_pos_log2, iter_xO, Z.log2_mul_pow2 by lia. lia. }
    rewrite Hdz, Hfexp, Z.sub_diag.
    cbn [shr shr_m loc_of_shr_record round_nearest_even Zdigits2].
    rewrite Hdz, Hfexp, Z.sub_diag. cbn [shr shr_m].
    assert (Hle : (d - 53 <=? emax - prec) = true)
      by (apply Z.leb_le; unfold emax, prec; lia).
    rewrite Hle. exists (Pos.iter xO M p), (d - 53). repeat split; [lia|].
    unfold scaled. rewrite iter_xO, <- Hsc, <- Z.mul_assoc, <- Z.pow_add_r by lia.
    f_equal. f_equal. lia.
Qed.

(** The integer a finite positive double holds, read on its scaled value. *)
Lemma integerOf_scaled m e a :
  -1074 <= e ->
  (integerOf (S754_finite false m e) = Some a <-> scaled m e = a * 2 ^ 1074).
Proof.
  intros He. unfold integerOf, scaled.
  destruct (0 <=? e) eqn:E.
  - apply Z.leb_le in E. rewrite Z.pow_add_r by lia. split.
    + intros [= <-]. ring.
    + intros H. f_equal.
      apply (Z.mul_cancel_r _ _ (2 ^ 1074)); [pose proof (pow2_pos 1074); lia | lia].
  - apply Z.leb_gt in E.
    assert (Hp : 2 ^ 1074 = 2 ^ (e + 1074) * 2 ^ (- e)).
    { rewrite <- Z.pow_add_r by lia. f_equal. lia. }
    pose proof (pow2_pos (e + 1074) ltac:(lia)) as Hpos1.
    pose proof (pow2_pos (- e) ltac:(lia)) as Hpos2.
    rewrite Hp. split.
    + destruct (Z.pos m mod 2 ^ (- e) =? 0) eqn:Em; [|discriminate].
      intros [= <-]. apply Z.eqb_eq in Em.
      pose proof (Z.div_mod (Z.pos m) (2 ^ (- e)) ltac:(lia)) as Hdm.
      rewrite Em, Z.add_0_r in Hdm. rewrite Hdm at 1. ring.
    + intros H.
      assert (Hm : Z.pos m = a * 2 ^ (- e)).
      { apply (Z.mul_cancel_r _ _ (2 ^ (e + 1074))); [lia|]. rewrite H. ring. }
      rewrite Hm, Z.mod_mul, Z.div_mul by lia. reflexivity.
Qed.

(** A finite double that holds a natural number is positive. *)
Lemma integerOf_finite_nonneg s m e a :
  integerOf (S754_finite s m e) = Some a -> 0 <= a -> s = false /\ 1 <= a.
Proof.
  unfold integerOf. intros H Ha.
  assert (Hv : forall v,
             (if 0 <=? e then Some (Z.pos m * 2 ^ e)
              else if Z.pos m mod 2 ^ (- e) =? 0
                   then Some (Z.pos m / 2 ^ (- e)) else None) = Some v ->
             1 <= v).
  { intros v. destruct (0 <=? e) eqn:E.
    - apply Z.leb_le in E. intros [= <-]. pose proof (pow2_pos e E). nia.
    - apply Z.leb_gt in E.
      destruct (Z.pos m mod 2 ^ (- e) =? 0) eqn:Em; [|discriminate].
      intros [= <-]. apply Z.eqb_eq in Em.
      pose proof (pow2_pos (- e) ltac:(lia)) as Hpos.
      pose proof (Z.div_mod (Z.pos m) (2 ^ (- e)) ltac:(lia)) as Hdm.
      rewrite Em, Z.add_0_r in Hdm.
      assert (0 < Z.pos m / 2 ^ (- e)) by nia. lia. }
  destruct s.
  - destruct (if 0 <=? e then _ else _) as [v|] eqn:Ev; [|discriminate].
    injection H as <-. specialize (Hv v eq_refl). lia.
  - split; [reflexivity | now apply Hv].
Qed.

(** No double has an exponent below -1074. *)
Lemma valid_binary_emin s m e :
  valid_binary (S754_finite s m e) = true -> -1074 <= e.
Proof.
  unfold SpecFloat.valid_binary, bounded, canonical_mantissa, fexp, emin, prec, emax.
  intros H. apply andb_true_iff in H as [H _]. apply Z.eqb_eq in H. lia.
Qed.

Lemma shl_align_scaled m e ez :
  -1074 <= ez <= e ->
  scaled (fst (shl_align m e ez)) ez = scaled m e.
Proof.
  intros H. unfold shl_align, scaled.
  destruct (ez - e) as [|p|p] eqn:E; cbn [fst]; try lia.
  - now replace ez with e by lia.
  - rewrite iter_xO, <- Z.mul_assoc, <- Z.pow_add_r by lia. f_equal. f_equal. lia.
Qed.

(** Adding two doubles that hold natural numbers with a sum of at most 2^53
    is exact. *)
Lemma SF64add_exact (X Y : spec_float) (a b : Z) :
  valid_binary X = true -> valid_binary Y = true ->
  integerOf X = Some a -> integerOf Y = Some b ->
  0 <= a -> 0 <= b -> a + b <= 2 ^ 53 ->
  integerOf (SF64add X Y) = Some (a + b).
Proof.
  intros HvX HvY HX HY Ha Hb Hab.
  destruct X as [sx| |  |sx mx ex]; try discriminate HX;
    destruct Y as [sy| | |sy my ey]; try discriminate HY.
  - injection HX as <-. injection HY as <-. now destruct sx, sy.
  - injection HX as <-. exact HY.
  - injection HY as <-. rewrite Z.add_0_r. exact HX.
  - destruct (integerOf_finite_nonneg _ _ _ _ HX Ha) as [-> Ha1].
    destruct (integerOf_finite_nonneg _ _ _ _ HY Hb) as [-> Hb1].
    pose proof (valid_binary_emin _ _ _ HvX) as Hex.
    pose proof (valid_binary_emin _ _ _ HvY) as Hey.
    apply integerOf_scaled in HX; [|exact Hex].
    apply integerOf_scaled in HY; [|exact Hey].
    unfold SF64add, SFadd, cond_Zopp.
    set (ez := Z.min ex ey).
    pose proof (shl_align_scaled mx ex ez ltac:(lia)) as Hx.
    pose proof (shl_align_scaled my ey ez ltac:(lia)) as Hy.
    set (mx' := fst (shl_align mx ex ez)) in *.
    set (my' := fst (shl_align my ey ez)) in *.
    change (Z.pos mx' + Z.pos my') with (Z.pos (mx' + my')).
    cbn [binary_normalize].
    destruct (binary_round_exact (mx' + my') ez (a + b)) as (m' & e' & Hr & He' & Hs).
    + lia.
    + lia.
    + unfold scaled in *. rewrite Pos2Z.inj_add, Z.mul_add_distr_r. lia.
    + rewrite Hr. apply integerOf_scaled; assumption.
Qed.

Lemma add_exact (x y : float) (a b : Z) :
  integerValue x = Some a -> integerValue y = Some b ->
  0 <= a -> 0 <= b -> a + b <= 2 ^ 53 ->
  integerValue (x + y) = Some (a + b).
Proof.
  unfold integerValue. intros. rewrite FloatAxioms.add_spec.
  apply SF64add_exact; auto using Prim2SF_valid.
Qed.

Lemma SFcompare_refl_finite s m e :
  SFcompare (S754_finite s m e) (S754_finite s m e) = Some Eq.
Proof.
  unfold SFcompare. rewrite Z.compare_refl.
  change (Pos.compare_cont Eq m m) with (Pos.compare m m).
  rewrite Pos.compare_refl. now destruct s.
Qed.

(** [x || 0] keeps the integer a double holds. *)
Lemma integerValue_numberOr0 (x : float) (a : Z) :
  integerValue x = Some a -> integerValue (numberOr0 x) = Some a.
Proof.
  unfold integerValue, numberOr0, falsyNumber. rewrite !FloatAxioms.eqb_spec.
  change (Prim2SF 0) with (S754_zero false).
  destruct (Prim2SF x) as [s| | |s m e] eqn:E; try discriminate.
  - intros [= <-]. reflexivity.
  - intros H. unfold SFeqb at 2. rewrite SFcompare_refl_finite.
    replace (SFeqb (S754_finite s m e) (S754_zero false)) with false
      by now destruct s.
    cbn [orb negb]. now rewrite E.
Qed.

(** A double that passes [min: 1] and holds an integer holds one that is at
    least 1. *)
Lemma integerValue_min_1 (x : float) (a : Z) :
  (1 <=? x)%float = true -> integerValue x = Some a -> 1 <= a.
Proof.
  rewrite FloatAxioms.leb_spec. unfold integerValue.
  change (Prim2SF 1) with (S754_finite false 4503599627370496 (-52)).
  destruct (Prim2SF x) as [s| | |s m e]; try discriminate.
  destruct s; [discriminate|].
  intros _ H. unfold integerOf in H.
  destruct (0 <=? e) eqn:Ee.
  - injection H as <-. apply Z.leb_le in Ee. pose proof (pow2_pos e Ee). nia.
  - destruct (Z.pos m mod 2 ^ (- e) =? 0) eqn:Em; [|discriminate].
    injection H as <-. apply Z.leb_gt in Ee. apply Z.eqb_eq in Em.
    pose proof (pow2_pos (- e) ltac:(lia)) as Hpos.
    pose proof (Z.div_mod (Z.pos m) (2 ^ (- e)) ltac:(lia)) as Hdm.
    rewrite Em, Z.add_0_r in Hdm.
    assert (0 < Z.pos m / 2 ^ (- e)) by nia. lia.
Qed.

End Doubles.

(** ** Order: the item count *)

Lemma orZero_id z : orZero z = z.
Proof.
  unfold orZero. destruct (z =? 0)%Z eqn:E; [|reflexivity].
  apply Z.eqb_eq in E. now subst.
Qed.

Lemma reduceQuantities_sumFrom (l : list Order.Item.t) (acc : float) :
  Order.reduceQuantities acc l = Order.sumFrom acc l.
Proof.
  unfold Order.reduceQuantities. revert acc.
  induction l as [|i l IH]; intros acc; simpl; [reflexivity | apply IH].
Qed.

Lemma quantityOr0_sum (o : option (list Order.Item.t)) :
  Order.quantityOr0 o = numberOr0 (Order.sumQuantities (orEmpty o)).
Proof.
  destruct o as [l|]; simpl; [|reflexivity].
  now rewrite reduceQuantities_sumFrom.
Qed.

(** What the validators of the items leave: every quantity is at least 1. *)
Lemma validate_quantities (o : Order.t) :
  Order.validate o = None ->
  Forall (fun item => (1 <=? Order.Item.quantity item)%float = true)
    (orEmpty (Order.items o)).
Proof.
  unfold Order.validate. destruct (falsyStr (Order.orderNumber o)); [discriminate|].
  induction (orEmpty (Order.items o)) as [|item l IH]; [constructor|].
  cbn [omap list_omap]. unfold Order.validateItem at 1.
  destruct (Order.Item.sku item); [discriminate|].
  destruct (1 <=? Order.Item.quantity item)%float eqn:E; [|discriminate].
  intros H. constructor; [exact E | exact (IH H)].
Qed.

Lemma exactQuantity_cons (item : Order.Item.t) (l : list Order.Item.t) (total : Z) :
  Order.exactQuantity (item :: l) = Some total ->
  exists q t,
    integerValue (Order.Item.quantity item) = Some q
    /\ Order.exactQuantity l = Some t
    /\ total = (q + t)%Z.
Proof.
  cbn [Order.exactQuantity fold_right].
  fold (Order.exactQuantity l).
  destruct (integerValue (Order.Item.quantity item)) as [q|]; [|discriminate].
  destruct (Order.exactQuantity l) as [t|]; [|discriminate].
  intros [= <-]. now exists q, t.
Qed.

(** The quantities of validated items add up to at least their number. *)
Lemma exactQuantity_lower (l : list Order.Item.t) : forall total,
  Forall (fun item => (1 <=? Order.Item.quantity item)%float = true) l ->
  Order.exactQuantity l = Some total ->
  (Z.of_nat (length l) <= total)%Z.
Proof.
  induction l as [|item l IH]; intros total Hq Ht.
  - injection Ht as <-. simpl. lia.
  - apply exactQuantity_cons in Ht as (q & t & Hiq & Hit & ->).
    inversion Hq as [|? ? H1 Hl]; subst.
    pose proof (integerValue_min_1 _ _ H1 Hiq).
    pose proof (IH t Hl Hit). simpl length. lia.
Qed.

(** As long as the sum of the quantities is at most 2^53, the additions of
    the hook round nothing away. *)
Lemma sumFrom_exact (l : list Order.Item.t) : forall acc a total,
  integerValue acc = Some a -> (0 <= a)%Z ->
  Forall (fun item => (1 <=? Order.Item.quantity item)%float = true) l ->
  Order.exactQuantity l = Some total ->
  (a + total <= 2 ^ 53)%Z ->
  integerValue (Order.sumFrom acc l) = Some (a + total)%Z.
Proof.
  induction l as [|item l IH]; intros acc a total Hacc Ha Hq Ht Hb.
  - injection Ht as <-. simpl. now rewrite Z.add_0_r.
  - apply exactQuantity_cons in Ht as (q & t & Hiq & Hit & ->).
    inversion Hq as [|? ? H1 Hl]; subst.
    pose proof (integerValue_min_1 _ _ H1 Hiq) as Hq1.
    pose proof (exactQuantity_lower l t Hl Hit) as Ht0.
    cbn [Order.sumFrom]. rewrite Z.add_assoc.
    apply IH; [|lia|exact Hl|exact Hit|lia].
    apply add_exact; [exact Hacc|exact Hiq|lia|lia|lia].
Qed.

(** The expression of the hook and of the virtual on validated items whose
    quantities are whole numbers with a sum of at most 2^53. *)
Lemma quantityOr0_exact (o : Order.t) (total : Z) :
  Order.validate o = None ->
  Order.exactQuantity (orEmpty (Order.items o)) = Some total ->
  (total <= 2 ^ 53)%Z ->
  integerValue (Order.quantityOr0 (Order.items o)) = Some total.
Proof.
  intros Hv Ht Hb. rewrite quantityOr0_sum.
  apply integerValue_numberOr0.
  exact (sumFrom_exact _ 0%float 0%Z total eq_refl ltac:(lia)
           (validate_quantities o Hv) Ht Hb).
Qed.

(** C9, as the code has it. After any save of an Order, the Order has the
    items it was saved with and [itemCount] is the sum of [quantity] over
    the entries of [items] that the additions of doubles make, taken from 0
    in the order of the array, a falsy sum stored as 0.  When the
    quantities are whole numbers and add up to at most 2^53, [itemCount] is
    their sum. *)
Theorem order_itemCount_after_save (st : DocState) (now : Z)
    (token : jsstring) (o : Order.t) :
  (exists o',
     Order.preSave st now token o = Next o'
     /\ Order.items o' = Order.items o
     /\ Order.itemCount o'
        = numberOr0 (Order.sumQuantities (orEmpty (Order.items o))))
  /\ (forall total,
        Order.validate o = None ->
        Order.exactQuantity (orEmpty (Order.items o)) = Some total ->
        (total <= 2 ^ 53)%Z ->
        exists o',
          save Order.validate (Order.preSave st now token) o = Next o'
          /\ Order.items o' = Order.items o
          /\ integerValue (Order.itemCount o') = Some total).
Proof.
  split.
  - eexists. split; [reflexivity|]. simpl. split; [reflexivity|].
    apply quantityOr0_sum.
  - intros total Hv Ht Hb. unfold save. rewrite Hv.
    eexists. split; [reflexivity|]. cbn [Order.items Order.itemCount].
    split; [reflexivity|]. now apply quantityOr0_exact.
Qed.

(** C10, as the code has it. After any save of an Order, the Order has the
    items it was saved with, and the [totalQuantity] virtual and the stored
    [itemCount] agree: each is the sum of [quantity] over the entries of
    [items] that the additions of doubles make, taken from 0 in the order
    of the array, a falsy sum read as 0.  When the quantities are whole
    numbers and add up to at most 2^53, both are their sum. *)
Theorem order_totalQuantity_agrees (st : DocState) (now : Z)
    (token : jsstring) (o : Order.t) :
  (exists o',
     Order.preSave st now token o = Next o'
     /\ Order.items o' = Order.items o
     /\ Order.totalQuantity o' = Order.itemCount o'
     /\ Order.totalQuantity o'
        = numberOr0 (Order.sumQuantities (orEmpty (Order.items o))))
  /\ (forall total,
        Order.validate o = None ->
        Order.exactQuantity (orEmpty (Order.items o)) = Some total ->
        (total <= 2 ^ 53)%Z ->
        exists o',
          save Order.validate (Order.preSave st now token) o = Next o'
          /\ Order.items o' = Order.items o
          /\ Order.totalQuantity o' = Order.itemCount o'
          /\ integerValue (Order.totalQuantity o') = Some total).
Proof.
  split.
  - eexists. split; [reflexivity|]. simpl. split; [reflexivity|].
    split; [reflexivity|]. apply quantityOr0_sum.
  - intros total Hv Ht Hb. unfold save. rewrite Hv.
    eexists. split; [reflexivity|].
    unfold Order.totalQuantity. cbn [Order.items Order.itemCount].
    split; [reflexivity|]. split; [reflexivity|]. now apply quantityOr0_exact.
Qed.

(** ** The properties at concrete documents *)

Import Examples.

Example slugify_example :
  Slug.slugify asciiLowerCase (lit "  Hello,  World! ") = lit "hello-world".
Proof. reflexivity. Qed.

Example slugify_only_punctuation :
  Slug.slugify asciiLowerCase (lit "!!") = lit "".
Proof. reflexivity. Qed.

Example splitWhitespace_example :
  splitWhitespace (lit " a  b ") = [lit ""; lit "a"; lit "b"; lit ""].
Proof. reflexivity. Qed.

Example splitWhitespace_empty : splitWhitespace (lit "") = [lit ""].
Proof. reflexivity. Qed.

(** Slug generation applied twice to a title. *)
Lemma slugify_idempotent_witness :
  Slug.slugify asciiLowerCase (Slug.slugify asciiLowerCase (lit "  Hello,  World! "))
  = Slug.slugify asciiLowerCase (lit "  Hello,  World! ").
Proof.
  exact (slugify_idempotent asciiLowerCase asciiLowerCase_slug_units
           (lit "  Hello,  World! ")).
Defined.

(** A Review whose [targetType] is product and whose reference is in [post]
    fails the check the specification describes, and is saved. *)
Lemma review_target_mismatch_saved :
  Review.specTargetCheck mismatchedReview = false
  /\ save Review.validate Review.preSave mismatchedReview = Next mismatchedReview
  /\ save Review.validate Review.preSave mismatchedReview
     <> NextError (ValidationError target_mismatch).
Proof. repeat split. discriminate. Qed.

(** The scenario of the specification: a root created with [parent: null],
    then a child under it. *)
Example category_scenario :
  Category.preSave asciiLowerCase createdWithParent ∅ electronicsDraft
  = Next electronicsRoot
  /\ Category.preSave asciiLowerCase createdWithParent {[ 1 := electronicsRoot ]}
       phonesDraft
     = Next phones.
Proof. split; reflexivity. Qed.



(** Phones saved with [parent] 1 while the collection is empty: the save
    goes through and leaves the hierarchy paths at their defaults. *)
Lemma category_missing_parent_counterexample :
  Category.findById ∅ 1 = None
  /\ Category.parent phonesDraft = Some 1
  /\ save Category.validate (Category.preSave asciiLowerCase createdWithParent ∅)
       phonesDraft
     = Next phonesOrphan
  /\ save Category.validate (Category.preSave asciiLowerCase createdWithParent ∅)
       phonesDraft
     <> NextError (ValidationError invalid_reference).
Proof. repeat split. discriminate. Qed.

Lemma category_missing_parent_witness :
  Category.validate phonesDraft = None
  /\ Category.parent phonesDraft = Some 1
  /\ Category.findById ∅ 1 = None
  /\ exists c',
       save Category.validate (Category.preSave asciiLowerCase createdWithParent ∅)
         phonesDraft = Next c'
       /\ Category.parent c' = Some 1
       /\ Category.ancestors c' = Category.ancestors phonesDraft
       /\ Category.level c' = Category.level phonesDraft
       /\ Category.path c' = Category.path phonesDraft.
Proof.
  split; [reflexivity|]. split; [reflexivity|]. split; [reflexivity|].
  apply (category_missing_parent_saved asciiLowerCase createdWithParent ∅
           phonesDraft 1); reflexivity.
Defined.

(** A Post titled "Hello World", created while no Post exists: the bare slug
    "hello-world" collides with nothing, and the slug still carries the
    timestamp. *)
Lemma post_slug_counterexample :
  ~ Post.slugInUse ∅ (lit "hello-world")
  /\ Slug.slugify asciiLowerCase (Post.title helloDraft) = lit "hello-world"
  /\ exists p',
       Post.preSave asciiLowerCase createdPost saveTime helloDraft = Next p'
       /\ Post.slug p' = Some (lit "hello-world-1700000000000")
       /\ Post.slug p' <> Some (Slug.slugify asciiLowerCase (Post.title helloDraft)).
Proof.
  split.
  - intros (id & p & H & _). rewrite lookup_empty in H. discriminate.
  - split; [reflexivity|]. eexists. split; [reflexivity|].
    split; [reflexivity | discriminate].
Qed.

Lemma post_slug_witness :
  isModified createdPost "title" = true
  /\ falsyStr (Post.slug helloDraft) = true
  /\ exists p',
       Post.preSave asciiLowerCase createdPost saveTime helloDraft = Next p'
       /\ Post.slug p'
          = Some (Slug.slugify asciiLowerCase (Post.title helloDraft)
                  ++ [hyphen] ++ decimal saveTime).
Proof.
  split; [reflexivity|]. split; [reflexivity|].
  apply (post_slug_timestamped asciiLowerCase asciiLowerCase_slug_units
           createdPost saveTime helloDraft); reflexivity.
Defined.


(** Four words read in one minute. *)
Example post_readTime_example :
  exists p',
    save Post.validate (Post.preSave asciiLowerCase createdPost saveTime) helloDraft
    = Next p'
    /\ Post.content p' = Some (lit "hello brave new world")
    /\ Post.wordCount p' = 4%Z
    /\ Post.Stats.readTime (Post.stats p') = 1%Z.
Proof. eexists. repeat split. Qed.

(** The hook counts the pieces of [split], empty ones included: on a text
    the [trim] setter would not have stored (here with a leading blank) its
    count is one more than the [wordCount] virtual's, and on the empty text,
    which the [required] validator rejects, it is one instead of zero. *)
Example pieces_of_untrimmed_text :
  length (splitWhitespace (lit " a")) = 2%nat
  /\ length (List.filter nonEmptyWord (splitWhitespace (lit " a"))) = 1%nat
  /\ length (splitWhitespace (lit "")) = 1%nat
  /\ length (List.filter nonEmptyWord (splitWhitespace (lit ""))) = 0%nat.
Proof. repeat split. Qed.

(** One comment with two reactions and a reply: one comment, no reaction. *)
Example post_counts_nested :
  exists p',
    Post.preSave asciiLowerCase createdPost saveTime commentedPost = Next p'
    /\ Post.Stats.commentsCount (Post.stats p') = 1%Z
    /\ Post.Stats.reactionsCount (Post.stats p') = 0%Z.
Proof. eexists. repeat split. Qed.

(** The scenario of the specification: quantities 2 and 3 make 5, and no
    item makes 0. *)
Example order_scenario :
  (exists o',
     save Order.validate (Order.preSave createdOrder saveTime (lit "K3J9X2M1Q"))
       (newOrder [item 2; item 3])
     = Next o'
     /\ Order.itemCount o' = 5%float
     /\ Order.totalQuantity o' = 5%float
     /\ Order.orderNumber o' = Some (lit "ORD-1001"))
  /\ (exists o',
        save Order.validate (Order.preSave createdOrder saveTime (lit "K3J9X2M1Q"))
          (newOrder [])
        = Next o'
        /\ Order.itemCount o' = 0%float).
Proof. split; eexists; repeat split. Qed.

Lemma order_itemCount_witness :
  Order.validate (newOrder [item 2; item 3]) = None
  /\ Order.exactQuantity (orEmpty (Order.items (newOrder [item 2; item 3])))
     = Some 5%Z
  /\ (5 <= 2 ^ 53)%Z
  /\ exists o',
       save Order.validate (Order.preSave createdOrder saveTime (lit "K3J9X2M1Q"))
         (newOrder [item 2; item 3])
       = Next o'
       /\ Order.items o' = Order.items (newOrder [item 2; item 3])
       /\ integerValue (Order.itemCount o') = Some 5%Z.
Proof.
  assert (Hb : (5 <= 2 ^ 53)%Z) by (intros H; discriminate H).
  split; [reflexivity|]. split; [reflexivity|]. split; [exact Hb|].
  exact (proj2 (order_itemCount_after_save createdOrder saveTime
                  (lit "K3J9X2M1Q") (newOrder [item 2; item 3]))
               5%Z eq_refl eq_refl Hb).
Defined.

Lemma order_totalQuantity_witness :
  Order.validate (newOrder [item 1; item 4; item 7]) = None
  /\ Order.exactQuantity (orEmpty (Order.items (newOrder [item 1; item 4; item 7])))
     = Some 12%Z
  /\ (12 <= 2 ^ 53)%Z
  /\ exists o',
       save Order.validate (Order.preSave createdOrder saveTime (lit "K3J9X2M1Q"))
         (newOrder [item 1; item 4; item 7])
       = Next o'
       /\ Order.items o' = Order.items (newOrder [item 1; item 4; item 7])
       /\ Order.totalQuantity o' = Order.itemCount o'
       /\ integerValue (Order.totalQuantity o') = Some 12%Z.
Proof.
  assert (Hb : (12 <= 2 ^ 53)%Z) by (intros H; discriminate H).
  split; [reflexivity|]. split; [reflexivity|]. split; [exact Hb|].
  exact (proj2 (order_totalQuantity_agrees createdOrder saveTime
                  (lit "K3J9X2M1Q") (newOrder [item 1; item 4; item 7]))
               12%Z eq_refl eq_refl Hb).
Defined.

(** C9 does not hold as stated: an Order with quantities 2^53 and 1 passes
    the validators and is saved with its two items; their quantities add up
    to 2^53 + 1, and [itemCount] is 2^53, the double the second addition
    rounds to. *)
Lemma order_itemCount_counterexample :
  exists o',
    save Order.validate (Order.preSave createdOrder saveTime (lit "K3J9X2M1Q"))
      (newOrder [item twoTo53; item 1])
    = Next o'
    /\ Order.items o' = Some [item twoTo53; item 1]
    /\ Order.exactQuantity (orEmpty (Order.items o')) = Some 9007199254740993%Z
    /\ integerValue (Order.itemCount o') = Some 9007199254740992%Z.
Proof. eexists. repeat split; vm_compute; reflexivity. Qed.

(** C10 does not hold as stated: the virtual and the field agree, but not on
    the sum of the quantities.  Two Orders with the same three quantities,
    2^53, 1 and 1, in two orders, are both saved; the quantities of each add
    up to 2^53 + 2; [totalQuantity] and [itemCount] are 2^53 for the one and
    2^53 + 2 for the other. *)
Lemma order_totalQuantity_counterexample :
  exists o1 o2,
    save Order.validate (Order.preSave createdOrder saveTime (lit "K3J9X2M1Q"))
      (newOrder [item twoTo53; item 1; item 1])
    = Next o1
    /\ save Order.validate (Order.preSave createdOrder saveTime (lit "K3J9X2M1Q"))
         (newOrder [item 1; item 1; item twoTo53])
       = Next o2
    /\ Order.exactQuantity (orEmpty (Order.items o1)) = Some 9007199254740994%Z
    /\ Order.exactQuantity (orEmpty (Order.items o2)) = Some 9007199254740994%Z
    /\ Order.totalQuantity o1 = Order.itemCount o1
    /\ Order.totalQuantity o2 = Order.itemCount o2
    /\ integerValue (Order.totalQuantity o1) = Some 9007199254740992%Z
    /\ integerValue (Order.totalQuantity o2) = Some 9007199254740994%Z.
Proof. do 2 eexists. repeat split; vm_compute; reflexivity. Qed.

(** * Further properties of the models *)

(** ** The category tree *)

Lemma Forall2_right_In {A B} (R : A -> B -> Prop) l k y :
  Forall2 R l k -> In y k -> exists x, In x l /\ R x y.
Proof.
  induction 1 as [|x y' l k HR _ IH]; simpl; [contradiction|].
  intros [<-|Hy]; [exists x; auto|].
  destruct (IH Hy) as (x' & Hx' & HR'). exists x'. auto.
Qed.

Lemma Forall2_left_In {A B} (R : A -> B -> Prop) l k x :
  Forall2 R l k -> In x l -> exists y, In y k /\ R x y.
Proof.
  induction 1 as [|x' y l k HR _ IH]; simpl; [contradiction|].
  intros [<-|Hx]; [exists y; auto|].
  destruct (IH Hx) as (y' & Hy' & HR'). exists y'. auto.
Qed.

Section CategoryTree.

Variable categories : list (ObjectId * Category.t).

Lemma buildTree_fuel_mono fuel : forall parentId forest fuel',
  Category.buildTree fuel categories parentId = Some forest ->
  (fuel <= fuel')%nat ->
  Category.buildTree fuel' categories parentId = Some forest.
Proof.
  induction fuel as [|fuel IH]; intros parentId forest fuel' H Hle; [discriminate|].
  destruct fuel' as [|fuel']; [lia|]. simpl in *.
  apply mapM_Some in H. apply mapM_Some.
  eapply Forall2_impl; [exact H|]. intros entry tr Htr. simpl in *.
  apply fmap_Some in Htr as (ch & Hch & ->).
  rewrite (IH _ _ fuel' Hch); [reflexivity | lia].
Qed.

Lemma entry_unique id c c' :
  List.NoDup (List.map fst categories) ->
  In (id, c) categories -> In (id, c') categories -> c = c'.
Proof.
  induction categories as [|[i d] l IH]; simpl; [contradiction|].
  intros Hnd [H1|H1] [H2|H2].
  - congruence.
  - injection H1 as -> ->. apply List.NoDup_cons_iff in Hnd as [Hn _].
    exfalso. apply Hn. apply (List.in_map fst) in H2. exact H2.
  - injection H2 as -> ->. apply List.NoDup_cons_iff in Hnd as [Hn _].
    exfalso. apply Hn. apply (List.in_map fst) in H1. exact H1.
  - apply List.NoDup_cons_iff in Hnd as [_ Hnd]. now apply IH.
Qed.

Lemma descends_root_functional :
  List.NoDup (List.map fst categories) ->
  forall id n, Category.descends categories None id n ->
  forall m, Category.descends categories None id m -> n = m.
Proof.
  intros Hnd id n H. induction H as [id c Hin Hp | id c p n Hin Hp H IH];
    intros m Hm; inversion Hm as [id' c' Hin' Hp' | id' c' p' m' Hin' Hp' Hm']; subst.
  - reflexivity.
  - rewrite (entry_unique _ _ _ Hnd Hin Hin') in Hp. congruence.
  - rewrite (entry_unique _ _ _ Hnd Hin Hin') in Hp. congruence.
  - rewrite (entry_unique _ _ _ Hnd Hin Hin') in Hp.
    assert (p = p') by congruence. subst p'. f_equal. now apply IH.
Qed.

Lemma descends_in id top n :
  Category.descends categories top id n -> In id (List.map fst categories).
Proof.
  intros H. destruct H as [id c Hin _ | id c p n Hin _ _];
    apply (List.in_map fst) in Hin; exact Hin.
Qed.

Lemma descends_positive id top n :
  Category.descends categories top id n -> (1 <= n)%nat.
Proof. destruct 1; lia. Qed.

(** The documents on the way from a document to its root are distinct. *)
Lemma descends_root_chain :
  List.NoDup (List.map fst categories) ->
  forall id n, Category.descends categories None id n ->
  exists l,
    length l = n /\ List.NoDup l /\ incl l (List.map fst categories)
    /\ forall x, In x l ->
         exists k, (k <= n)%nat /\ Category.descends categories None x k.
Proof.
  intros Hnd id n H.
  induction H as [id c Hin Hp | id c p n Hin Hp H IH].
  - exists [id]. repeat split.
    + constructor; [intros [] | constructor].
    + intros x [<-|[]]. apply (List.in_map fst) in Hin. exact Hin.
    + intros x [<-|[]]. exists 1%nat. split; [lia|].
      now apply Category.descends_child with c.
  - destruct IH as (l & Hlen & Hl & Hincl & Hk).
    exists (id :: l). repeat split.
    + simpl. now rewrite Hlen.
    + constructor; [|exact Hl]. intros Hid.
      destruct (Hk id Hid) as (k & Hle & Hd).
      assert (Hd' : Category.descends categories None id (S n))
        by now apply Category.descends_step with c p.
      pose proof (descends_root_functional Hnd _ _ Hd _ Hd'). lia.
    + intros x [<-|Hx]; [|now apply Hincl].
      apply (List.in_map fst) in Hin. exact Hin.
    + intros x [<-|Hx].
      * exists (S n). split; [lia|]. now apply Category.descends_step with c p.
      * destruct (Hk x Hx) as (k & Hle & Hd). exists k. split; [lia | exact Hd].
Qed.

Lemma descends_root_bound :
  List.NoDup (List.map fst categories) ->
  forall id n, Category.descends categories None id n ->
  (n <= length categories)%nat.
Proof.
  intros Hnd id n H.
  destruct (descends_root_chain Hnd id n H) as (l & Hlen & Hl & Hincl & _).
  rewrite <- Hlen. rewrite <- (List.length_map fst categories).
  now apply List.NoDup_incl_length.
Qed.

Lemma buildTree_enough_fuel :
  List.NoDup (List.map fst categories) ->
  forall fuel parentId d,
    (parentId = None /\ d = 0%nat)
    \/ (exists id, parentId = Some id /\ Category.descends categories None id d) ->
    (length categories < fuel + d)%nat ->
    is_Some (Category.buildTree fuel categories parentId).
Proof.
  intros Hnd fuel. induction fuel as [|fuel IH]; intros parentId d Hd Hlt.
  - exfalso. destruct Hd as [[_ ->] | (id & _ & Hd)]; [simpl in Hlt; lia|].
    pose proof (descends_root_bound Hnd _ _ Hd). simpl in Hlt. lia.
  - simpl. apply mapM_is_Some_2. apply List.Forall_forall.
    intros [id c] Hin. apply List.filter_In in Hin as [Hin Hp]. simpl in *.
    unfold Category.sameParent in Hp. apply bool_decide_eq_true in Hp.
    apply fmap_is_Some. apply (IH (Some id) (S d)); [|lia].
    right. exists id. split; [reflexivity|].
    destruct Hd as [[-> ->] | (p & -> & Hd)].
    + now apply Category.descends_child with c.
    + now apply Category.descends_step with c p.
Qed.

Lemma descends_under_child e c top id n :
  In (e, c) categories -> Category.parent c = top ->
  Category.descends categories (Some e) id n ->
  Category.descends categories top id (S n).
Proof.
  intros Hin Hp H.
  induction H as [id c' Hin' Hp' | id c' p n Hin' Hp' H IH].
  - apply Category.descends_step with c' e; [exact Hin' | exact Hp' |].
    now apply Category.descends_child with c.
  - now apply Category.descends_step with c' p.
Qed.

Lemma descends_split top id n :
  Category.descends categories top id n ->
  (exists c, In (id, c) categories /\ Category.parent c = top)
  \/ (exists e c m, In (e, c) categories /\ Category.parent c = top
                    /\ Category.descends categories (Some e) id m).
Proof.
  intros H. induction H as [id c Hin Hp | id c p n Hin Hp H IH].
  - left. now exists c.
  - right. destruct IH as [(cp & Hcp & Hpp) | (e & ce & m & He & Hpe & Hd)].
    + exists p, cp, 1%nat. repeat split; [exact Hcp | exact Hpp |].
      now apply Category.descends_child with c.
    + exists e, ce, (S m). repeat split; [exact He | exact Hpe |].
      now apply Category.descends_step with c p.
Qed.

Lemma forest_entry fuel parentId forest tr :
  Category.buildTree (S fuel) categories parentId = Some forest ->
  In tr forest ->
  exists id c children,
    tr = Category.Node id c children
    /\ In (id, c) categories /\ Category.parent c = parentId
    /\ Category.buildTree fuel categories (Some id) = Some children.
Proof.
  simpl. intros H Hin. apply mapM_Some in H.
  destruct (Forall2_right_In _ _ _ _ H Hin) as ([id c] & Hentry & Htr).
  simpl in Htr. apply fmap_Some in Htr as (children & Hch & ->).
  apply List.filter_In in Hentry as [Hentry Hp]. simpl in Hp.
  unfold Category.sameParent in Hp. apply bool_decide_eq_true in Hp.
  exists id, c, children. auto.
Qed.

Lemma entry_forest fuel parentId forest id c :
  Category.buildTree (S fuel) categories parentId = Some forest ->
  In (id, c) categories -> Category.parent c = parentId ->
  exists children,
    In (Category.Node id c children) forest
    /\ Category.buildTree fuel categories (Some id) = Some children.
Proof.
  simpl. intros H Hin Hp. apply mapM_Some in H.
  assert (Hf : In (id, c)
                 (List.filter (fun entry =>
                    Category.sameParent (Category.parent entry.2) parentId)
                    categories)).
  { apply List.filter_In. split; [exact Hin|]. simpl.
    unfold Category.sameParent. now apply bool_decide_eq_true. }
  destruct (Forall2_left_In _ _ _ _ H Hf) as (tr & Htr & Hb).
  simpl in Hb. apply fmap_Some in Hb as (children & Hch & ->).
  exists children. auto.
Qed.

Lemma buildTree_nodes_descend fuel : forall parentId forest id,
  Category.buildTree fuel categories parentId = Some forest ->
  In id (flat_map Category.nodeIds forest) ->
  exists n, Category.descends categories parentId id n.
Proof.
  induction fuel as [|fuel IH]; intros parentId forest id H Hid; [discriminate|].
  apply List.in_flat_map in Hid as (tr & Htr & Hid).
  destruct (forest_entry _ _ _ _ H Htr) as (e & c & children & -> & Hin & Hp & Hch).
  simpl in Hid. destruct Hid as [<- | Hid].
  - exists 1%nat. now apply Category.descends_child with c.
  - destruct (IH _ _ _ Hch Hid) as (n & Hn).
    exists (S n). now apply descends_under_child with e c.
Qed.

Lemma buildTree_descend_nodes fuel : forall parentId forest id n,
  Category.buildTree fuel categories parentId = Some forest ->
  Category.descends categories parentId id n ->
  In id (flat_map Category.nodeIds forest).
Proof.
  induction fuel as [|fuel IH]; intros parentId forest id n H Hd; [discriminate|].
  apply List.in_flat_map.
  destruct (descends_split _ _ _ Hd) as [(c & Hin & Hp) | (e & c & m & Hin & Hp & Hm)].
  - destruct (entry_forest _ _ _ _ _ H Hin Hp) as (children & Htr & _).
    eexists. split; [exact Htr|]. simpl. now left.
  - destruct (entry_forest _ _ _ _ _ H Hin Hp) as (children & Htr & Hch).
    eexists. split; [exact Htr|]. simpl. right. now apply (IH _ _ _ _ Hch Hm).
Qed.

Lemma buildTree_children_in_order fuel : forall parentId forest tr,
  Category.buildTree fuel categories parentId = Some forest ->
  In tr (flat_map Category.subtrees forest) ->
  Category.childEntries tr
  = List.filter (fun entry =>
      Category.sameParent (Category.parent entry.2) (Some (Category.rootEntry tr).1))
      categories.
Proof.
  induction fuel as [|fuel IH]; intros parentId forest tr H Htr; [discriminate|].
  apply List.in_flat_map in Htr as (top & Htop & Htr).
  destruct (forest_entry _ _ _ _ H Htop) as (e & c & children & -> & Hin & Hp & Hch).
  simpl in Htr. destruct Htr as [<- | Htr].
  - simpl. destruct fuel as [|fuel]; [discriminate|]. simpl in Hch.
    apply mapM_Some in Hch. clear -Hch.
    induction Hch as [|entry tr l k Hr _ IHk]; [reflexivity|]. simpl.
    apply fmap_Some in Hr as (ch & _ & ->). simpl. rewrite IHk.
    now destruct entry.
  - now apply (IH _ _ _ Hch Htr).
Qed.

Lemma buildTree_roots fuel parentId forest :
  Category.buildTree fuel categories parentId = Some forest ->
  List.map Category.rootEntry forest
  = List.filter (fun entry =>
      Category.sameParent (Category.parent entry.2) parentId) categories.
Proof.
  destruct fuel as [|fuel]; [discriminate|]. simpl. intros H.
  apply mapM_Some in H.
  induction H as [|entry tr l k Hr _ IHk]; [reflexivity|]. simpl.
  apply fmap_Some in Hr as (ch & _ & ->). simpl. rewrite IHk.
  now destruct entry.
Qed.

End CategoryTree.

(** X1. [getTree] returns: when the ids of the documents are distinct, the
    recursion of [buildTree] from null ends within as many levels as there
    are documents, and a larger bound on the depth gives the same forest. *)
Theorem getTree_terminates (active : list (ObjectId * Category.t)) :
  List.NoDup (List.map fst active) ->
  exists forest,
    Category.getTree active = Some forest
    /\ forall fuel, (length active < fuel)%nat ->
         Category.buildTree fuel active None = Some forest.
Proof.
  intros Hnd. unfold Category.getTree.
  destruct (buildTree_enough_fuel active Hnd (S (length active)) None 0%nat)
    as [forest Hf]; [now left | lia |].
  exists forest. split; [exact Hf|]. intros fuel Hlt.
  apply (buildTree_fuel_mono active _ _ _ _ Hf). lia.
Qed.

(** X2. A document is a node of the tree [getTree] returns exactly when its
    chain of parents leads to null through documents of the query result. *)
Theorem getTree_nodes (active : list (ObjectId * Category.t)) :
  List.NoDup (List.map fst active) ->
  exists forest,
    Category.getTree active = Some forest
    /\ forall id,
         In id (flat_map Category.nodeIds forest)
         <-> exists n, Category.descends active None id n.
Proof.
  intros Hnd. unfold Category.getTree.
  destruct (buildTree_enough_fuel active Hnd (S (length active)) None 0%nat)
    as [forest Hf]; [now left | lia |].
  exists forest. split; [exact Hf|]. intros id. split.
  - exact (buildTree_nodes_descend active _ _ _ _ Hf).
  - intros (n & Hn). exact (buildTree_descend_nodes active _ _ _ _ _ Hf Hn).
Qed.

(** X3. A document whose parent is not in the query result (no such
    category, or one that is not active) is left out of the tree. *)
Theorem getTree_drops_orphans (active : list (ObjectId * Category.t))
    (id parentId : ObjectId) (c : Category.t) :
  List.NoDup (List.map fst active) ->
  In (id, c) active ->
  Category.parent c = Some parentId ->
  ~ In parentId (List.map fst active) ->
  exists forest,
    Category.getTree active = Some forest
    /\ ~ In id (flat_map Category.nodeIds forest).
Proof.
  intros Hnd Hin Hp Hout. unfold Category.getTree.
  destruct (buildTree_enough_fuel active Hnd (S (length active)) None 0%nat)
    as [forest Hf]; [now left | lia |].
  exists forest. split; [exact Hf|]. intros Hid.
  destruct (buildTree_nodes_descend active _ _ _ _ Hf Hid) as (n & Hn).
  inversion Hn as [id' c' Hin' Hp' | id' c' p' n' Hin' Hp' Hd]; subst.
  - rewrite (entry_unique active _ _ _ Hnd Hin Hin') in Hp. congruence.
  - rewrite (entry_unique active _ _ _ Hnd Hin Hin') in Hp.
    assert (p' = parentId) by congruence. subst p'.
    apply Hout. now apply descends_in with None n'.
Qed.

(** X4. The roots of the tree are the documents without a parent, and the
    children of every node are the documents whose parent is that node, both
    in the order of the query result. *)
Theorem getTree_keeps_order (active : list (ObjectId * Category.t)) :
  List.NoDup (List.map fst active) ->
  exists forest,
    Category.getTree active = Some forest
    /\ List.map Category.rootEntry forest
       = List.filter (fun entry => Category.isRoot entry.2) active
    /\ forall tr,
         In tr (flat_map Category.subtrees forest) ->
         Category.childEntries tr
         = List.filter
             (fun entry =>
                bool_decide (Category.parent entry.2 = Some (Category.rootEntry tr).1))
             active.
Proof.
  intros Hnd. unfold Category.getTree.
  destruct (buildTree_enough_fuel active Hnd (S (length active)) None 0%nat)
    as [forest Hf]; [now left | lia |].
  exists forest. split; [exact Hf|]. split.
  - rewrite (buildTree_roots active _ _ _ Hf). apply List.filter_ext.
    intros [id c]. simpl. unfold Category.sameParent, Category.isRoot.
    destruct (Category.parent c); reflexivity.
  - intros tr Htr. exact (buildTree_children_in_order active _ _ _ _ Hf Htr).
Qed.

(** ** Category: what the hook keeps *)

Section CategoryHook.

Variable toLowerCase : jsstring -> jsstring.

(** X6. The hook keeps [level] equal to the number of [ancestors]: when that
    holds of the document and of every stored category, it holds of the
    document as saved. *)
Theorem category_level_counts_ancestors (st : DocState)
    (categories : gmap ObjectId Category.t) (c : Category.t) :
  Category.levelMatchesAncestors c ->
  (forall id stored, categories !! id = Some stored ->
                     Category.levelMatchesAncestors stored) ->
  exists c',
    Category.preSave toLowerCase st categories c = Next c'
    /\ Category.levelMatchesAncestors c'.
Proof.
  intros Hc Hall. eexists. split; [reflexivity|].
  assert (H1 : Category.levelMatchesAncestors (Category.generateSlug toLowerCase st c)).
  { unfold Category.generateSlug.
    destruct (isModified st "name" && falsyStr (Category.slug c)); exact Hc. }
  unfold Category.updateHierarchy.
  destruct (isModified st "parent"); [|exact H1].
  destruct (Category.parent _) as [parentId|]; [|reflexivity].
  unfold Category.findById.
  destruct (categories !! parentId) as [stored|] eqn:Hs; [|exact H1].
  unfold Category.levelMatchesAncestors. simpl.
  rewrite (Hall _ _ Hs). rewrite List.length_app. simpl. lia.
Qed.

(** X7. The [fullPath] virtual composes: a category saved with its parent
    set to a stored category has as [fullPath] the parent's [fullPath],
    "/" and its own slug, whether or not the parent has a stored path. *)
Theorem category_fullPath_composes (st : DocState)
    (categories : gmap ObjectId Category.t) (c : Category.t)
    (parentId : ObjectId) (parentCategory : Category.t) :
  isModified st "parent" = true ->
  Category.parent c = Some parentId ->
  Category.findById categories parentId = Some parentCategory ->
  exists c',
    Category.preSave toLowerCase st categories c = Next c'
    /\ Category.fullPath c'
       = Some (toStr (Category.fullPath parentCategory) ++ [slash]
               ++ toStr (Category.slug c')).
Proof.
  intros Hm Hp Hf. eexists. split; [reflexivity|].
  unfold Category.updateHierarchy. rewrite Hm.
  assert (Hp1 : Category.parent (Category.generateSlug toLowerCase st c) = Some parentId).
  { unfold Category.generateSlug.
    destruct (isModified st "name" && falsyStr (Category.slug c)); exact Hp. }
  rewrite Hp1, Hf. unfold Category.fullPath at 1. simpl.
  unfold orStr at 1, falsyStr.
  destruct (toStr _ ++ _) eqn:E; [|reflexivity].
  apply List.app_eq_nil in E as [_ E]. discriminate E.
Qed.

(** X8. A category saved with its parent set to a stored category is, once
    stored, among the descendants [getDescendants] finds for the parent and
    for every ancestor of the parent. *)
Theorem category_saved_is_descendant (st : DocState)
    (categories : gmap ObjectId Category.t) (c : Category.t)
    (id parentId : ObjectId) (parentCategory : Category.t) :
  isModified st "parent" = true ->
  Category.parent c = Some parentId ->
  Category.findById categories parentId = Some parentCategory ->
  exists c',
    Category.preSave toLowerCase st categories c = Next c'
    /\ Category.getDescendants (<[id := c']> categories) parentId !! id = Some c'
    /\ forall a,
         In a (orEmpty (Category.ancestors parentCategory)) ->
         Category.getDescendants (<[id := c']> categories) a !! id = Some c'.
Proof.
  intros Hm Hp Hf. eexists. split; [reflexivity|].
  unfold Category.updateHierarchy. rewrite Hm.
  assert (Hp1 : Category.parent (Category.generateSlug toLowerCase st c) = Some parentId).
  { unfold Category.generateSlug.
    destruct (isModified st "name" && falsyStr (Category.slug c)); exact Hp. }
  rewrite Hp1, Hf. unfold Category.getDescendants. split.
  - apply map_lookup_filter_Some. split; [apply lookup_insert_eq|].
    simpl. apply list_elem_of_In, List.in_or_app. right. now left.
  - intros a Ha. apply map_lookup_filter_Some. split; [apply lookup_insert_eq|].
    simpl. apply list_elem_of_In, List.in_or_app. now left.
Qed.

End CategoryHook.

(** ** Slugs are safe in a URL *)

Lemma hyphenated_no_double b a rest :
  hyphenated b (a ++ hyphen :: hyphen :: rest) = false.
Proof.
  revert b. induction a as [|c a IH]; intros b.
  - simpl. now rewrite !andb_false_r.
  - simpl. destruct (isLowerAlnum c); [apply IH|].
    rewrite IH. apply andb_false_r.
Qed.

(** X10. Whatever the name and the runtime's case mapping, a generated slug
    holds only [a-z], [0-9] and hyphens, neither starts nor ends with a
    hyphen, and has no two hyphens in a row. *)
Theorem slugify_url_safe (toLowerCase : jsstring -> jsstring) (s : jsstring) :
  forallb isSlugUnit (Slug.slugify toLowerCase s) = true
  /\ startsWithHyphen (Slug.slugify toLowerCase s) = false
  /\ endsWithHyphen (Slug.slugify toLowerCase s) = false
  /\ forall a b, Slug.slugify toLowerCase s <> a ++ hyphen :: hyphen :: b.
Proof.
  destruct (slug_shape (toLowerCase s)) as (Hu & Hh & Hs & He).
  fold (Slug.slugify toLowerCase s) in Hu, Hh, Hs, He.
  repeat split; trivial.
  intros a b E. rewrite E in Hh. rewrite hyphenated_no_double in Hh. discriminate.
Qed.

(** ** Post: slugs, reading time, tallies *)

Lemma lit_inj s t : lit s = lit t -> s = t.
Proof.
  unfold lit. intros H.
  apply (f_equal (List.map ascii_of_N)) in H.
  rewrite !List.map_map in H.
  rewrite (List.map_ext _ id), (List.map_ext (fun x => ascii_of_N (N_of_ascii x)) id) in H
    by (intros a; apply ascii_N_embedding).
  rewrite !List.map_id in H.
  apply (f_equal string_of_list_ascii) in H.
  now rewrite !string_of_list_ascii_of_string in H.
Qed.

Lemma to_int_not_nil z : Z.to_int z <> Pos Nil /\ Z.to_int z <> Neg Nil.
Proof.
  destruct z as [|p|p]; simpl; split; try discriminate;
    intros [= H]; now apply DecimalPos.Unsigned.to_uint_nonnil in H.
Qed.

(** Different numbers have different decimal renderings. *)
Lemma decimal_inj a b : decimal a = decimal b -> a = b.
Proof.
  unfold decimal. intros H. apply lit_inj in H.
  apply (f_equal NilZero.int_of_string) in H.
  destruct (to_int_not_nil a) as [Ha1 Ha2], (to_int_not_nil b) as [Hb1 Hb2].
  rewrite !NilZero.isi in H by assumption.
  injection H as H. now apply DecimalZ.to_int_inj.
Qed.

Section PostHook.

Variable toLowerCase : jsstring -> jsstring.

Hypothesis toLowerCase_slug_units :
  forall s, forallb isSlugUnit s = true -> toLowerCase s = s.

Lemma generateSlug_fresh (st : DocState) (now : Z) (p : Post.t) :
  isModified st "title" = true -> falsyStr (Post.slug p) = true ->
  Post.generateSlug toLowerCase st now p
  = Some (Slug.slugify toLowerCase (Post.title p) ++ [hyphen] ++ decimal now).
Proof using toLowerCase_slug_units.
  intros Hm Hs. unfold Post.generateSlug. rewrite Hm, Hs. simpl. f_equal.
  apply (castSlug_slug_units toLowerCase toLowerCase_slug_units).
  rewrite forallb_app, slugify_units. simpl. apply decimal_units.
Qed.

(** X11. Two Posts with the same title, each saved with its title set and no
    slug, get the same slug exactly when they are saved at the same
    millisecond: the timestamp alone tells them apart. *)
Theorem post_slugs_differ_by_time (st1 st2 : DocState) (now1 now2 : Z)
    (p1 p2 : Post.t) :
  isModified st1 "title" = true -> falsyStr (Post.slug p1) = true ->
  isModified st2 "title" = true -> falsyStr (Post.slug p2) = true ->
  Post.title p1 = Post.title p2 ->
  exists p1' p2',
    Post.preSave toLowerCase st1 now1 p1 = Next p1'
    /\ Post.preSave toLowerCase st2 now2 p2 = Next p2'
    /\ (Post.slug p1' = Post.slug p2' <-> now1 = now2).
Proof using toLowerCase_slug_units.
  intros Hm1 Hs1 Hm2 Hs2 Ht. do 2 eexists. split; [reflexivity|].
  split; [reflexivity|].
  change (Post.generateSlug toLowerCase st1 now1 p1
          = Post.generateSlug toLowerCase st2 now2 p2 <-> now1 = now2).
  rewrite (generateSlug_fresh _ _ _ Hm1 Hs1), (generateSlug_fresh _ _ _ Hm2 Hs2), Ht.
  split.
  - intros [= H]. apply List.app_inv_head in H. injection H as H.
    now apply decimal_inj.
  - now intros ->.
Qed.

End PostHook.

Lemma splitWs_not_nil s : forall cur inSep, splitWs cur inSep s <> [].
Proof.
  induction s as [|c s IH]; intros cur inSep; simpl; [discriminate|].
  destruct (isWhiteSpace c); [|apply IH].
  destruct inSep; [apply IH | discriminate].
Qed.

(** [ceilDiv n 200] is the least number of two-hundreds that cover [n]. *)
Lemma ceilDiv_200 n :
  (n <= 200 * ceilDiv n 200 < n + 200)%Z.
Proof.
  unfold ceilDiv.
  pose proof (Z.div_mod (- n) 200 ltac:(lia)).
  pose proof (Z.mod_pos_bound (- n) 200 ltac:(lia)).
  lia.
Qed.

(** X12. After a save that set [content] (the value its setter stored, the
    validators passed), the Post has the content it was saved with,
    [stats.readTime] is at least one minute and is the least number of
    minutes in which the words the [wordCount] virtual counts in that
    content are read at 200 a minute. *)
Theorem post_readTime_bounds (toLowerCase : jsstring -> jsstring)
    (st : DocState) (now : Z) (p : Post.t) (raw : jsstring) :
  isModified st "content" = true ->
  Post.content p = Some (Post.castContent raw) ->
  Post.validate p = None ->
  exists p',
    save Post.validate (Post.preSave toLowerCase st now) p = Next p'
    /\ Post.content p' = Post.content p
    /\ (1 <= Post.Stats.readTime (Post.stats p'))%Z
    /\ (Post.wordCount p <= 200 * Post.Stats.readTime (Post.stats p')
        < Post.wordCount p + 200)%Z.
Proof.
  intros Hm Hc Hv. unfold save. rewrite Hv.
  eexists. split; [reflexivity|]. simpl.
  split; [reflexivity|].
  unfold Post.computeReadTime, Post.wordCount. rewrite Hm. simpl.
  rewrite Hc.
  assert (Hne : Post.castContent raw <> []).
  { intros E. unfold Post.validate in Hv. rewrite Hc, E in Hv.
    destruct (Post.title p); discriminate Hv. }
  destruct (trim_shape raw) as [Hs He].
  unfold Post.castContent in *.
  rewrite (falsyStr_nonempty _ Hne). simpl.
  rewrite (words_of_trimmed (trim raw) Hne Hs He).
  pose proof (ceilDiv_200 (Z.of_nat (length (splitWhitespace (trim raw))))) as Hceil.
  assert (Hpos : (1 <= Z.of_nat (length (splitWhitespace (trim raw))))%Z).
  { pose proof (splitWs_not_nil (trim raw) [] false) as Hnil.
    unfold splitWhitespace. destruct (splitWs [] false (trim raw)); [congruence|].
    simpl length. lia. }
  split; [lia | exact Hceil].
Qed.

Lemma breakdown_lookup (l : list Post.Reaction.t) : forall (m : gmap N Z) (k : N),
  fold_left
    (fun breakdown r =>
       <[Post.Reaction.kind r :=
           (numOr0 (breakdown !! Post.Reaction.kind r) + 1)%Z]> breakdown)
    l m !! k
  = match count_occ N.eq_dec (List.map Post.Reaction.kind l) k with
    | O => m !! k
    | S n => Some (numOr0 (m !! k) + Z.of_nat (S n))%Z
    end.
Proof.
  induction l as [|r l IH]; intros m k; [reflexivity|].
  simpl fold_left. rewrite IH. simpl List.map. simpl count_occ.
  destruct (N.eq_dec (Post.Reaction.kind r) k) as [E|E].
  - subst k. rewrite lookup_insert_eq. simpl numOr0. rewrite orZero_id.
    destruct (count_occ N.eq_dec (List.map Post.Reaction.kind l) (Post.Reaction.kind r));
      f_equal; lia.
  - rewrite lookup_insert_ne by exact E. reflexivity.
Qed.

(** X14. The [reactionBreakdown] virtual maps a reaction type to the number
    of top-level reactions of that type, and has no entry for a type no
    reaction has. *)
Theorem post_reactionBreakdown_counts (p : Post.t) (k : N) :
  Post.reactionBreakdown p !! k
  = match count_occ N.eq_dec
            (List.map Post.Reaction.kind (orEmpty (Post.reactions p))) k with
    | O => None
    | S n => Some (Z.of_nat (S n))
    end.
Proof.
  unfold Post.reactionBreakdown. rewrite breakdown_lookup.
  rewrite lookup_empty. reflexivity.
Qed.

Lemma breakdownTotal_insert (m : gmap N Z) k v :
  Post.breakdownTotal (<[k := v]> m)
  = (Post.breakdownTotal m - numOr0 (m !! k) + v)%Z.
Proof.
  unfold Post.breakdownTotal.
  destruct (m !! k) as [old|] eqn:Hk.
  - rewrite <- insert_delete_eq.
    rewrite map_fold_insert_L; [| intros; lia | apply lookup_delete_eq].
    rewrite (map_fold_delete_L _ _ k old m); [| intros; lia | exact Hk].
    simpl. rewrite orZero_id. lia.
  - rewrite map_fold_insert_L; [| intros; lia | exact Hk]. simpl. lia.
Qed.

Lemma breakdownTotal_fold (l : list Post.Reaction.t) : forall (m : gmap N Z),
  Post.breakdownTotal
    (fold_left
       (fun breakdown r =>
          <[Post.Reaction.kind r :=
              (numOr0 (breakdown !! Post.Reaction.kind r) + 1)%Z]> breakdown)
       l m)
  = (Post.breakdownTotal m + Z.of_nat (length l))%Z.
Proof.
  induction l as [|r l IH]; intros m; simpl fold_left.
  - simpl. lia.
  - rewrite IH, breakdownTotal_insert. simpl length. lia.
Qed.

(** X15. After any save of a Post, the Post has the reactions it was saved
    with and [stats.reactionsCount] is the sum of the counts of the
    [reactionBreakdown] virtual, read before the save or after it: the
    breakdown splits the top-level reactions by type and loses none. *)
Theorem post_reactionsCount_is_breakdown_total
    (toLowerCase : jsstring -> jsstring) (st : DocState) (now : Z) (p : Post.t) :
  exists p',
    Post.preSave toLowerCase st now p = Next p'
    /\ Post.reactions p' = Post.reactions p
    /\ Post.reactionBreakdown p' = Post.reactionBreakdown p
    /\ Post.Stats.reactionsCount (Post.stats p')
       = Post.breakdownTotal (Post.reactionBreakdown p).
Proof.
  eexists. split; [reflexivity|]. simpl.
  split; [reflexivity|]. split; [reflexivity|].
  unfold Post.reactionBreakdown. simpl. rewrite breakdownTotal_fold.
  unfold Post.breakdownTotal. rewrite map_fold_empty.
  destruct (Post.reactions p); reflexivity.
Qed.

(** After any save of a Post, the [totalEngagement] virtual is the
    number of top-level reactions plus the number of top-level comments plus
    [stats.sharesCount]. *)
Lemma post_totalEngagement_after_save
    (toLowerCase : jsstring -> jsstring) (st : DocState) (now : Z) (p : Post.t) :
  exists p',
    Post.preSave toLowerCase st now p = Next p'
    /\ Post.totalEngagement p'
       = (Z.of_nat (length (orEmpty (Post.reactions p')))
          + Z.of_nat (length (orEmpty (Post.comments p')))
          + Post.Stats.sharesCount (Post.stats p'))%Z.
Proof.
  eexists. split; [reflexivity|]. unfold Post.totalEngagement. simpl.
  rewrite !orZero_id.
  destruct (Post.reactions p), (Post.comments p); reflexivity.
Qed.

(** X16. Saving a Post again with nothing modified changes nothing: the
    slug gets no second timestamp, the excerpt and the reading time stay,
    and the tallies are recomputed to the same values. *)
Theorem post_resave_unmodified (toLowerCase : jsstring -> jsstring)
    (st st' : DocState) (now now' : Z) (p : Post.t) :
  modifiedPaths st' = [] ->
  exists p',
    Post.preSave toLowerCase st now p = Next p'
    /\ Post.preSave toLowerCase st' now' p' = Next p'.
Proof.
  intros Hst. eexists. split; [reflexivity|].
  assert (H : forall path, isModified st' path = false)
    by (intros path; unfold isModified; now rewrite Hst).
  unfold Post.preSave, Post.generateSlug, Post.generateExcerpt, Post.computeReadTime.
  rewrite !H. reflexivity.
Qed.

(** X17. An excerpt the hook generates holds at most 303 code units (the
    first 300 of the content and three dots); an excerpt that is already
    there is kept. *)
Theorem post_excerpt_after_save (toLowerCase : jsstring -> jsstring)
    (st : DocState) (now : Z) (p : Post.t) :
  exists p',
    Post.preSave toLowerCase st now p = Next p'
    /\ (falsyStr (Post.excerpt p) = false -> Post.excerpt p' = Post.excerpt p)
    /\ (falsyStr (Post.excerpt p) = true ->
        isModified st "content" = true ->
        forall c, Post.content p = Some c ->
        Post.excerpt p' = Some (firstn 300 c ++ lit "...")
        /\ (length (toStr (Post.excerpt p')) <= 303)%nat).
Proof.
  eexists. split; [reflexivity|]. simpl. unfold Post.generateExcerpt. split.
  - intros ->. now rewrite andb_false_r.
  - intros -> -> c ->. simpl. split; [reflexivity|].
    rewrite List.length_app, List.length_firstn. simpl length at 2. lia.
Qed.

(** ** Review: the tallies of the votes *)

Lemma votes_split (l : list Review.Vote.t) :
  (length (List.filter (fun v => Review.isHelpful (Review.Vote.type v)) l)
   + length (List.filter (fun v => Review.isNotHelpful (Review.Vote.type v)) l)
   = length l)%nat.
Proof.
  induction l as [|v l IH]; simpl; [reflexivity|].
  destruct (Review.Vote.type v); simpl; lia.
Qed.

(** X18. After any save of a Review, the Review has the votes it was saved
    with and every vote is counted once:
    [helpfulCount] and [notHelpfulCount] are not negative and add up to the
    number of votes, so [helpfulnessScore] lies between minus and plus that
    number. *)
Theorem review_votes_partition (r : Review.t) :
  exists r',
    Review.preSave r = Next r'
    /\ Review.votes r' = Review.votes r
    /\ (0 <= Review.helpfulCount r')%Z
    /\ (0 <= Review.notHelpfulCount r')%Z
    /\ (Review.helpfulCount r' + Review.notHelpfulCount r'
        = Z.of_nat (length (orEmpty (Review.votes r))))%Z
    /\ (- Z.of_nat (length (orEmpty (Review.votes r)))
        <= Review.helpfulnessScore r'
        <= Z.of_nat (length (orEmpty (Review.votes r))))%Z.
Proof.
  eexists. split; [reflexivity|]. simpl.
  split; [reflexivity|].
  destruct (Review.votes r) as [l|]; simpl; [|lia].
  pose proof (votes_split l). lia.
Qed.

(** X19. The hook of a Review is idempotent: saving what a save left gives
    the same document, so the counters do not drift. *)
Theorem review_preSave_idempotent (r : Review.t) :
  exists r',
    Review.preSave r = Next r' /\ Review.preSave r' = Next r'.
Proof. eexists. split; reflexivity. Qed.

(** ** Order: the order number and the item count *)

(** X20. Through a save the hook never gives an order number: an Order
    without one (absent or empty) is rejected by the [required] validator,
    which runs before the hook, and an Order that is saved had an order
    number and keeps it, new or not, at any time and with any random
    text. *)
Theorem order_number_required_on_save (st : DocState) (now : Z)
    (token : jsstring) (o : Order.t) :
  (falsyStr (Order.orderNumber o) = true ->
   save Order.validate (Order.preSave st now token) o
   = NextError (ValidationError required_field))
  /\ (forall o',
        save Order.validate (Order.preSave st now token) o = Next o' ->
        falsyStr (Order.orderNumber o) = false
        /\ Order.orderNumber o' = Order.orderNumber o).
Proof.
  unfold save, Order.validate.
  destruct (falsyStr (Order.orderNumber o)) eqn:E.
  - split; [reflexivity | discriminate].
  - split; [discriminate|]. intros o' H. split; [reflexivity|].
    destruct (head (omap Order.validateItem (orEmpty (Order.items o))));
      [discriminate|].
    unfold Order.preSave in H. injection H as <-.
    cbn [Order.orderNumber]. rewrite E. now rewrite andb_false_r.
Qed.

(** Run on its own, the hook leaves an Order that is not new the order
    number it has, even none. *)
Lemma order_number_kept_when_not_new (st : DocState) (now : Z)
    (token : jsstring) (o : Order.t) :
  isNew st = false ->
  exists o', Order.preSave st now token o = Next o'
             /\ Order.orderNumber o' = Order.orderNumber o.
Proof. intros H. eexists. split; [reflexivity|]. simpl. now rewrite H. Qed.

(** X21. A saved Order whose quantities are whole numbers that add up to at
    most 2^53 has the items it was saved with, and its [itemCount] is at
    least the number of those items: it is 0 only for an Order without
    items. *)
Theorem order_itemCount_covers_items (st : DocState) (now : Z)
    (token : jsstring) (o : Order.t) (total : Z) :
  Order.validate o = None ->
  Order.exactQuantity (orEmpty (Order.items o)) = Some total ->
  (total <= 2 ^ 53)%Z ->
  exists o',
    save Order.validate (Order.preSave st now token) o = Next o'
    /\ Order.items o' = Order.items o
    /\ integerValue (Order.itemCount o') = Some total
    /\ (Z.of_nat (length (orEmpty (Order.items o))) <= total)%Z
    /\ (total = 0%Z <-> orEmpty (Order.items o) = []).
Proof.
  intros Hv Ht Hb. unfold save. rewrite Hv.
  eexists. split; [reflexivity|]. cbn [Order.items Order.itemCount].
  split; [reflexivity|]. split; [now apply quantityOr0_exact|].
  pose proof (exactQuantity_lower _ total (validate_quantities o Hv) Ht) as Hle.
  split; [exact Hle|]. split.
  - intros ->. destruct (orEmpty (Order.items o)); [reflexivity|].
    simpl length in Hle. lia.
  - intros E. rewrite E in Ht. now injection Ht as <-.
Qed.

(** ** Tag: find or create *)

Lemma findOneBySlug_Some (tags : gmap ObjectId Tag.t) s tag :
  Tag.findOneBySlug tags s = Some tag ->
  exists id, tags !! id = Some tag /\ Tag.slug tag = Some s.
Proof.
  unfold Tag.findOneBySlug. intros H.
  apply fmap_Some in H as ([id tag'] & Hh & ->). simpl.
  apply head_Some_elem_of in Hh. apply elem_of_map_to_list in Hh.
  apply map_lookup_filter_Some in Hh as [Hl Hs]. exists id. auto.
Qed.

Lemma findOneBySlug_None (tags : gmap ObjectId Tag.t) s :
  Tag.findOneBySlug tags s = None ->
  filter (fun entry : ObjectId * Tag.t => Tag.slug entry.2 = Some s) tags = ∅.
Proof.
  unfold Tag.findOneBySlug. intros H. apply fmap_None in H.
  apply map_to_list_empty_iff. now apply head_None.
Qed.

Lemma findOneBySlug_stored (tags : gmap ObjectId Tag.t) s id tag :
  Tag.findOneBySlug tags s = None ->
  Tag.slug tag = Some s ->
  Tag.findOneBySlug (<[id := tag]> tags) s = Some tag.
Proof.
  intros Hnone Hs. apply findOneBySlug_None in Hnone.
  unfold Tag.findOneBySlug.
  rewrite map_filter_insert_True by exact Hs.
  rewrite Hnone, insert_empty, map_to_list_singleton. reflexivity.
Qed.

Section TagStore.

Variable toLowerCase : jsstring -> jsstring.

Hypothesis toLowerCase_slug_units :
  forall s, forallb isSlugUnit s = true -> toLowerCase s = s.

(** What [findOrCreate] does when no tag has the slug and the slug is not
    empty: the tag it stores carries that slug. *)
Lemma findOrCreate_creates (tags : gmap ObjectId Tag.t) (newId : ObjectId)
    (name : jsstring) (type : Tag.TagType) tag tags' :
  Slug.slugify toLowerCase name <> [] ->
  Tag.findOneBySlug tags (Slug.slugify toLowerCase name) = None ->
  Tag.findOrCreate toLowerCase tags newId name type = Next (tag, tags') ->
  Tag.slug tag = Some (Slug.slugify toLowerCase name)
  /\ tags' = <[newId := tag]> tags.
Proof using toLowerCase_slug_units.
  intros Hne Hnone. unfold Tag.findOrCreate. rewrite Hnone.
  unfold Tag.create, save.
  destruct (Tag.validate _); [discriminate|].
  unfold Tag.preSave. cbn [Tag.slug Tag.name Tag.type Tag.stats].
  rewrite (castSlug_slug_units toLowerCase toLowerCase_slug_units _
             (slugify_units toLowerCase name)).
  rewrite (falsyStr_nonempty _ Hne), andb_false_r.
  cbn [mbind option_bind]. rewrite Hnone.
  intros [= <- <-]. split; reflexivity.
Qed.

(** X22. A tag that [findOrCreate] returns carries the slug of the name it
    was asked for and is in the collection the call leaves; the call changes
    no tag that was stored before. *)
Theorem tag_findOrCreate_result (tags : gmap ObjectId Tag.t) (newId : ObjectId)
    (name : jsstring) (type : Tag.TagType) (tag : Tag.t)
    (tags' : gmap ObjectId Tag.t) :
  Slug.slugify toLowerCase name <> [] ->
  Tag.findOrCreate toLowerCase tags newId name type = Next (tag, tags') ->
  Tag.slug tag = Some (Slug.slugify toLowerCase name)
  /\ (exists id, tags' !! id = Some tag)
  /\ (forall id, id <> newId -> tags' !! id = tags !! id).
Proof using toLowerCase_slug_units.
  intros Hne H.
  destruct (Tag.findOneBySlug tags (Slug.slugify toLowerCase name)) as [found|] eqn:Hf.
  - unfold Tag.findOrCreate in H. rewrite Hf in H. injection H as <- <-.
    destruct (findOneBySlug_Some _ _ _ Hf) as (id & Hid & Hs).
    split; [exact Hs|]. split; [now exists id | reflexivity].
  - destruct (findOrCreate_creates _ _ _ _ _ _ Hne Hf H) as [Hs ->].
    split; [exact Hs|]. split.
    + exists newId. apply lookup_insert_eq.
    + intros id Hid. now apply lookup_insert_ne.
Qed.

(** X23. [findOrCreate] is idempotent: after a call that returned a tag,
    a call for the same name, or for any name with the same slug, returns
    that tag and leaves the collection as it is. *)
Theorem tag_findOrCreate_idempotent (tags : gmap ObjectId Tag.t)
    (newId newId' : ObjectId) (name name' : jsstring)
    (type type' : Tag.TagType) (tag : Tag.t) (tags' : gmap ObjectId Tag.t) :
  Slug.slugify toLowerCase name <> [] ->
  Slug.slugify toLowerCase name' = Slug.slugify toLowerCase name ->
  Tag.findOrCreate toLowerCase tags newId name type = Next (tag, tags') ->
  Tag.findOrCreate toLowerCase tags' newId' name' type' = Next (tag, tags').
Proof using toLowerCase_slug_units.
  intros Hne Hsame H.
  destruct (Tag.findOneBySlug tags (Slug.slugify toLowerCase name)) as [found|] eqn:Hf.
  - unfold Tag.findOrCreate in H |- *. rewrite Hf in H. injection H as <- <-.
    now rewrite Hsame, Hf.
  - destruct (findOrCreate_creates _ _ _ _ _ _ Hne Hf H) as [Hs ->].
    unfold Tag.findOrCreate. rewrite Hsame.
    now rewrite (findOneBySlug_stored _ _ newId _ Hf Hs).
Qed.

End TagStore.

(** ** User: the full name *)

Lemma startsWithWs_rev s : startsWithWs (rev s) = endsWithWs s.
Proof.
  induction s as [|c s _] using rev_ind; [reflexivity|].
  rewrite rev_unit, endsWithWs_app_last. reflexivity.
Qed.

Lemma trimEnd_fixes s : endsWithWs s = false -> trimEnd s = s.
Proof.
  intros H. unfold trimEnd. rewrite trimStart_fixes.
  - apply rev_involutive.
  - now rewrite startsWithWs_rev.
Qed.

Lemma endsWithWs_app a l : l <> [] -> endsWithWs (a ++ l) = endsWithWs l.
Proof.
  intros Hl. induction a as [|c a IH]; [reflexivity|].
  rewrite <- IH. simpl. destruct (a ++ l) eqn:E; [|reflexivity].
  apply List.app_eq_nil in E as [_ E]. contradiction.
Qed.

Lemma trimmed_shape s :
  trim s = s -> startsWithWs s = false /\ endsWithWs s = false.
Proof. intros <-. apply trim_shape. Qed.

(** X24. For names as the schema stores them (trimmed, not empty), the
    [fullName] virtual is the first name, one blank and the last name; when
    one of the two is missing it is the other alone, with no blank left
    over, and when both are missing it is the empty string. *)
Theorem user_fullName (first last : jsstring) :
  trim first = first -> first <> [] ->
  trim last = last -> last <> [] ->
  User.fullName (Some {| User.Profile.firstName := Some first;
                         User.Profile.lastName := Some last |})
  = first ++ [32] ++ last
  /\ User.fullName (Some {| User.Profile.firstName := Some first;
                            User.Profile.lastName := None |}) = first
  /\ User.fullName (Some {| User.Profile.firstName := None;
                            User.Profile.lastName := Some last |}) = last
  /\ User.fullName (Some {| User.Profile.firstName := None;
                            User.Profile.lastName := None |}) = []
  /\ User.fullName None = [].
Proof.
  intros Hf Hfn Hl Hln.
  destruct (trimmed_shape _ Hf) as [Hfs Hfe], (trimmed_shape _ Hl) as [Hls Hle].
  unfold User.fullName. cbn [mbind option_bind User.Profile.firstName
                               User.Profile.lastName User.orBlank].
  repeat split; try reflexivity.
  - unfold trim. rewrite trimStart_fixes.
    + apply trimEnd_fixes. rewrite endsWithWs_app by discriminate.
      change (endsWithWs (32 :: last)) with (endsWithWs ([32] ++ last)).
      now rewrite endsWithWs_app.
    + destruct first; [contradiction | exact Hfs].
  - unfold trim. rewrite trimStart_fixes.
    + unfold trimEnd. rewrite List.app_nil_r, rev_unit. simpl.
      rewrite trimStart_fixes by now rewrite startsWithWs_rev.
      apply rev_involutive.
    + destruct first; [contradiction | exact Hfs].
  - unfold trim. simpl. rewrite trimStart_fixes by exact Hls.
    now apply trimEnd_fixes.
Qed.

(** ** The category tree holds a category once *)

Section CategoryTreeNodes.

Variable categories : list (ObjectId * Category.t).

Hypothesis ids_distinct : List.NoDup (List.map fst categories).

Lemma descends_compose e d x n :
  Category.descends categories None e d ->
  Category.descends categories (Some e) x n ->
  Category.descends categories None x (d + n).
Proof.
  intros He H. induction H as [x c Hin Hp | x c p n Hin Hp H IH].
  - replace (d + 1)%nat with (S d) by lia.
    now apply Category.descends_step with c e.
  - replace (d + S n)%nat with (S (d + n)) by lia.
    now apply Category.descends_step with c p.
Qed.

Lemma ancestor_unique e1 e2 x n :
  Category.descends categories (Some e1) x n ->
  Category.descends categories (Some e2) x n ->
  e1 = e2.
Proof using ids_distinct.
  intros H1. revert e2.
  induction H1 as [x c Hin Hp | x c p n Hin Hp H1 IH]; intros e2 H2;
    inversion H2 as [x' c' Hin' Hp' | x' c' p' n' Hin' Hp' H2']; subst.
  - rewrite (entry_unique categories _ _ _ ids_distinct Hin Hin') in Hp. congruence.
  - apply descends_positive in H2'. lia.
  - apply descends_positive in H1. lia.
  - rewrite (entry_unique categories _ _ _ ids_distinct Hin Hin') in Hp.
    assert (p = p') by congruence. subst p'. now apply IH.
Qed.

(** Two different documents at the same depth have no node in common among
    themselves and what descends from them. *)
Lemma subtrees_disjoint e1 e2 d x :
  e1 <> e2 ->
  Category.descends categories None e1 d ->
  Category.descends categories None e2 d ->
  (x = e1 \/ exists n, Category.descends categories (Some e1) x n) ->
  (x = e2 \/ exists n, Category.descends categories (Some e2) x n) ->
  False.
Proof using ids_distinct.
  intros Hne H1 H2 [-> | (n1 & Hx1)] [Hx | (n2 & Hx2)].
  - congruence.
  - pose proof (descends_compose _ _ _ _ H2 Hx2) as H.
    pose proof (descends_root_functional categories ids_distinct _ _ H1 _ H).
    apply descends_positive in Hx2. lia.
  - subst x. pose proof (descends_compose _ _ _ _ H1 Hx1) as H.
    pose proof (descends_root_functional categories ids_distinct _ _ H2 _ H).
    apply descends_positive in Hx1. lia.
  - pose proof (descends_compose _ _ _ _ H1 Hx1) as Ha.
    pose proof (descends_compose _ _ _ _ H2 Hx2) as Hb.
    pose proof (descends_root_functional categories ids_distinct _ _ Ha _ Hb).
    assert (n1 = n2) by lia. subst n2.
    apply Hne. now apply ancestor_unique with x n1.
Qed.

Lemma filter_ids_distinct (f : ObjectId * Category.t -> bool) :
  List.NoDup (List.map fst (List.filter f categories)).
Proof using ids_distinct.
  revert ids_distinct. induction categories as [|[i c] l IH]; simpl; intros Hnd.
  - constructor.
  - apply List.NoDup_cons_iff in Hnd as [Hi Hl].
    destruct (f (i, c)); [|now apply IH]. simpl. constructor; [|now apply IH].
    intros Hin. apply Hi. apply List.in_map_iff in Hin as ([i' c'] & <- & Hin).
    apply List.filter_In in Hin as [Hin _]. apply (List.in_map fst) in Hin. exact Hin.
Qed.

Lemma tree_nodes_under fuel e c children x :
  Category.buildTree fuel categories (Some e) = Some children ->
  In x (Category.nodeIds (Category.Node e c children)) ->
  x = e \/ exists n, Category.descends categories (Some e) x n.
Proof.
  intros Hch [<- | Hx]; [now left | right].
  exact (buildTree_nodes_descend categories _ _ _ _ Hch Hx).
Qed.

Lemma buildTree_nodes_distinct fuel : forall parentId d forest,
  (match parentId with
   | None => d = 0%nat
   | Some id => Category.descends categories None id d
   end) ->
  Category.buildTree fuel categories parentId = Some forest ->
  List.NoDup (flat_map Category.nodeIds forest).
Proof using ids_distinct.
  induction fuel as [|fuel IH]; intros parentId d forest Hd H; [discriminate|].
  assert (Hdepth : forall e c, In (e, c) categories -> Category.parent c = parentId ->
                               Category.descends categories None e (S d)).
  { intros e c Hin Hp. destruct parentId as [p|].
    - now apply Category.descends_step with c p.
    - subst d. now apply Category.descends_child with c. }
  assert (Htrees : forall tr, In tr forest ->
            exists e c children,
              tr = Category.Node e c children
              /\ Category.descends categories None e (S d)
              /\ Category.buildTree fuel categories (Some e) = Some children).
  { intros tr Htr.
    destruct (forest_entry categories _ _ _ _ H Htr) as (e & c & ch & -> & Hin & Hp & Hch).
    exists e, c, ch. split; [reflexivity|]. split; [now apply Hdepth with c | exact Hch]. }
  pose proof (buildTree_roots categories _ _ _ H) as Hroots.
  pose proof (filter_ids_distinct
                (fun entry => Category.sameParent (Category.parent entry.2) parentId))
    as Hnd.
  rewrite <- Hroots in Hnd. clear Hroots H Hdepth.
  induction forest as [|tr forest IHf]; [constructor|].
  cbn [flat_map]. rewrite List.map_cons in Hnd. simpl in Hnd.
  apply List.NoDup_cons_iff in Hnd as [Hhead Hnd].
  destruct (Htrees tr (or_introl eq_refl)) as (e & c & ch & -> & He & Hch).
  assert (Hrest : List.NoDup (flat_map Category.nodeIds forest)).
  { apply IHf; [|exact Hnd]. intros tr' Htr'. apply Htrees. now right. }
  assert (Hsub : List.NoDup (flat_map Category.nodeIds ch))
    by (apply (IH (Some e) (S d) ch); [exact He | exact Hch]).
  apply List.NoDup_app; [|exact Hrest|].
  - simpl. constructor; [|exact Hsub]. intros Hin.
    destruct (buildTree_nodes_descend categories _ _ _ _ Hch Hin) as (n & Hn).
    pose proof (descends_compose _ _ _ _ He Hn) as Hc.
    pose proof (descends_root_functional categories ids_distinct _ _ He _ Hc).
    apply descends_positive in Hn. lia.
  - intros x Hx Hx'.
    apply List.in_flat_map in Hx' as (tr' & Htr' & Hx').
    destruct (Htrees tr' (or_intror Htr')) as (e' & c' & ch' & -> & He' & Hch').
    apply (subtrees_disjoint e e' (S d) x).
    + intros <-. apply Hhead. simpl.
      apply (List.in_map (fun t => (Category.rootEntry t).1)) in Htr'.
      rewrite <- List.map_map in Htr'. exact Htr'.
    + exact He.
    + exact He'.
    + now apply tree_nodes_under with fuel c ch.
    + now apply tree_nodes_under with fuel c' ch'.
Qed.

End CategoryTreeNodes.

(** X5. The tree [getTree] returns holds every category at most once. *)
Theorem getTree_nodes_distinct (active : list (ObjectId * Category.t)) :
  List.NoDup (List.map fst active) ->
  exists forest,
    Category.getTree active = Some forest
    /\ List.NoDup (flat_map Category.nodeIds forest).
Proof.
  intros Hnd. unfold Category.getTree.
  destruct (buildTree_enough_fuel active Hnd (S (length active)) None 0%nat)
    as [forest Hf]; [now left | lia |].
  exists forest. split; [exact Hf|].
  exact (buildTree_nodes_distinct active Hnd (S (length active)) None 0%nat
           forest eq_refl Hf).
Qed.

(** ** Category: the slug is given once *)

Lemma updateHierarchy_slug (st : DocState) (categories : gmap ObjectId Category.t)
    (c : Category.t) :
  Category.slug (Category.updateHierarchy st categories c) = Category.slug c.
Proof.
  unfold Category.updateHierarchy.
  destruct (isModified st "parent"); [|reflexivity].
  destruct (Category.parent c); [|reflexivity].
  destruct (Category.findById categories _); reflexivity.
Qed.

Section CategorySlug.

Variable toLowerCase : jsstring -> jsstring.

Hypothesis toLowerCase_slug_units :
  forall s, forallb isSlugUnit s = true -> toLowerCase s = s.

(** X9. A Category keeps the slug of its first name: saved with its name
    set and no slug, it gets the slug of the name, and when that slug is not
    empty no later save changes it, whatever new name is assigned. *)
Theorem category_slug_given_once (st : DocState)
    (categories : gmap ObjectId Category.t) (c : Category.t) :
  isModified st "name" = true ->
  falsyStr (Category.slug c) = true ->
  Slug.slugify toLowerCase (Category.name c) <> [] ->
  exists c1,
    Category.preSave toLowerCase st categories c = Next c1
    /\ Category.slug c1 = Some (Slug.slugify toLowerCase (Category.name c))
    /\ forall st' categories' newName,
         exists c2,
           Category.preSave toLowerCase st' categories'
             (Category.setName newName c1) = Next c2
           /\ Category.slug c2 = Category.slug c1.
Proof using toLowerCase_slug_units.
  intros Hm Hs Hne.
  pose proof (category_slug_generated toLowerCase toLowerCase_slug_units st c Hm Hs)
    as Hgen.
  exists (Category.updateHierarchy st categories (Category.generateSlug toLowerCase st c)).
  split; [reflexivity|].
  assert (H1 : Category.slug
                 (Category.updateHierarchy st categories
                    (Category.generateSlug toLowerCase st c))
               = Some (Slug.slugify toLowerCase (Category.name c)))
    by now rewrite updateHierarchy_slug.
  split; [exact H1|]. intros st' categories' newName.
  eexists. split; [reflexivity|]. rewrite updateHierarchy_slug.
  unfold Category.generateSlug at 1. unfold Category.setName.
  cbn [Category.slug]. rewrite H1.
  rewrite (falsyStr_nonempty _ Hne), andb_false_r. cbn [Category.slug].
  reflexivity.
Qed.

End CategorySlug.

(** ** Post: a content without words *)

Lemma words_nil s : forall cur inSep,
  (inSep = true -> cur = []) ->
  List.filter nonEmptyWord (splitWs cur inSep s) = []
  <-> cur = [] /\ forallb isWhiteSpace s = true.
Proof.
  induction s as [|c s IH]; intros cur inSep Hinv.
  - simpl. destruct cur as [|a cur]; [tauto|].
    rewrite (nonEmptyWord_rev (a :: cur)) by discriminate.
    split; [discriminate | intros [E _]; discriminate E].
  - simpl. destruct (isWhiteSpace c) eqn:Hc; simpl.
    + destruct inSep.
      * rewrite (Hinv eq_refl). rewrite (IH [] true) by reflexivity. tauto.
      * destruct cur as [|a cur].
        -- simpl. rewrite (IH [] true) by reflexivity. tauto.
        -- change (List.filter nonEmptyWord (rev (a :: cur) :: splitWs [] true s))
             with (if nonEmptyWord (rev (a :: cur))
                   then rev (a :: cur) :: List.filter nonEmptyWord (splitWs [] true s)
                   else List.filter nonEmptyWord (splitWs [] true s)).
           rewrite (nonEmptyWord_rev (a :: cur)) by discriminate.
           split; [discriminate | intros [E _]; discriminate E].
    + rewrite (IH (c :: cur) false) by discriminate.
      split; [intros [E _]; discriminate E | intros [_ E]; discriminate E].
Qed.

(** X13. The [wordCount] virtual is 0 exactly when the content is absent or
    holds nothing but white space. *)
Theorem post_wordCount_zero (p : Post.t) :
  Post.wordCount p = 0%Z
  <-> forallb isWhiteSpace (orEmpty (Post.content p)) = true.
Proof.
  unfold Post.wordCount.
  destruct (Post.content p) as [[|c s]|]; simpl; try tauto.
  unfold splitWhitespace.
  pose proof (words_nil (c :: s) [] false ltac:(discriminate)) as H.
  simpl forallb in H.
  destruct (List.filter nonEmptyWord (splitWs [] false (c :: s))) eqn:E.
  - simpl. split; [intros _; now apply H | reflexivity].
  - simpl length. split; [lia|]. intros Hw.
    destruct H as [_ H]. specialize (H (conj eq_refl Hw)). discriminate H.
Qed.

(** ** The further properties at concrete documents *)

Lemma activeCategories_ids_distinct :
  List.NoDup (List.map fst activeCategories).
Proof.
  simpl. repeat constructor; simpl; intros H;
    repeat (destruct H as [H|H]; [discriminate H|]); exact H.
Qed.

(** Electronics with Phones and Cases below it; the stray category, whose
    parent is not stored, is left out. *)
Example getTree_example :
  Category.getTree activeCategories
  = Some [Category.Node 1 electronicsRoot
            [Category.Node 2 phones [Category.Node 4 cases []]]].
Proof. reflexivity. Qed.

Lemma getTree_terminates_witness :
  List.NoDup (List.map fst activeCategories)
  /\ exists forest,
       Category.getTree activeCategories = Some forest
       /\ forall fuel, (length activeCategories < fuel)%nat ->
            Category.buildTree fuel activeCategories None = Some forest.
Proof.
  split; [exact activeCategories_ids_distinct|].
  exact (getTree_terminates activeCategories activeCategories_ids_distinct).
Defined.

Lemma getTree_nodes_witness :
  List.NoDup (List.map fst activeCategories)
  /\ exists forest,
       Category.getTree activeCategories = Some forest
       /\ forall id,
            In id (flat_map Category.nodeIds forest)
            <-> exists n, Category.descends activeCategories None id n.
Proof.
  split; [exact activeCategories_ids_distinct|].
  exact (getTree_nodes activeCategories activeCategories_ids_distinct).
Defined.

Lemma getTree_drops_orphans_witness :
  List.NoDup (List.map fst activeCategories)
  /\ In (3, strayCategory) activeCategories
  /\ Category.parent strayCategory = Some 9
  /\ ~ In 9 (List.map fst activeCategories)
  /\ exists forest,
       Category.getTree activeCategories = Some forest
       /\ ~ In 3 (flat_map Category.nodeIds forest).
Proof.
  assert (Hin : In (3, strayCategory) activeCategories) by (simpl; auto).
  assert (Hout : ~ In 9 (List.map fst activeCategories))
    by (simpl; intros H; repeat (destruct H as [H|H]; [discriminate H|]); exact H).
  split; [exact activeCategories_ids_distinct|].
  split; [exact Hin|]. split; [reflexivity|]. split; [exact Hout|].
  exact (getTree_drops_orphans activeCategories 3 9 strayCategory
           activeCategories_ids_distinct Hin eq_refl Hout).
Defined.

Lemma getTree_keeps_order_witness :
  List.NoDup (List.map fst activeCategories)
  /\ exists forest,
       Category.getTree activeCategories = Some forest
       /\ List.map Category.rootEntry forest
          = List.filter (fun entry => Category.isRoot entry.2) activeCategories
       /\ forall tr,
            In tr (flat_map Category.subtrees forest) ->
            Category.childEntries tr
            = List.filter
                (fun entry =>
                   bool_decide
                     (Category.parent entry.2 = Some (Category.rootEntry tr).1))
                activeCategories.
Proof.
  split; [exact activeCategories_ids_distinct|].
  exact (getTree_keeps_order activeCategories activeCategories_ids_distinct).
Defined.

Lemma getTree_nodes_distinct_witness :
  List.NoDup (List.map fst activeCategories)
  /\ exists forest,
       Category.getTree activeCategories = Some forest
       /\ List.NoDup (flat_map Category.nodeIds forest).
Proof.
  split; [exact activeCategories_ids_distinct|].
  exact (getTree_nodes_distinct activeCategories activeCategories_ids_distinct).
Defined.

Lemma electronics_level_matches :
  forall id stored,
    ({[ 1 := electronics ]} : gmap ObjectId Category.t) !! id = Some stored ->
    Category.levelMatchesAncestors stored.
Proof.
  intros id stored H. apply lookup_singleton_Some in H as [_ <-]. reflexivity.
Qed.

Lemma category_level_counts_ancestors_witness :
  Category.levelMatchesAncestors phonesDraft
  /\ (forall id stored,
        ({[ 1 := electronics ]} : gmap ObjectId Category.t) !! id = Some stored ->
        Category.levelMatchesAncestors stored)
  /\ exists c',
       Category.preSave asciiLowerCase createdWithParent {[ 1 := electronics ]}
         phonesDraft = Next c'
       /\ Category.levelMatchesAncestors c'.
Proof.
  split; [reflexivity|]. split; [exact electronics_level_matches|].
  exact (category_level_counts_ancestors asciiLowerCase createdWithParent
           {[ 1 := electronics ]} phonesDraft eq_refl electronics_level_matches).
Defined.

Lemma category_fullPath_composes_witness :
  isModified createdWithParent "parent" = true
  /\ Category.parent phonesDraft = Some 1
  /\ Category.findById {[ 1 := electronics ]} 1 = Some electronics
  /\ exists c',
       Category.preSave asciiLowerCase createdWithParent {[ 1 := electronics ]}
         phonesDraft = Next c'
       /\ Category.fullPath c'
          = Some (toStr (Category.fullPath electronics) ++ [slash]
                  ++ toStr (Category.slug c')).
Proof.
  split; [reflexivity|]. split; [reflexivity|]. split; [reflexivity|].
  exact (category_fullPath_composes asciiLowerCase createdWithParent
           {[ 1 := electronics ]} phonesDraft 1 electronics eq_refl eq_refl eq_refl).
Defined.

Lemma category_saved_is_descendant_witness :
  isModified createdWithParent "parent" = true
  /\ Category.parent cases = Some 2
  /\ Category.findById {[ 1 := electronicsRoot; 2 := phones ]} 2 = Some phones
  /\ exists c',
       Category.preSave asciiLowerCase createdWithParent
         {[ 1 := electronicsRoot; 2 := phones ]} cases = Next c'
       /\ Category.getDescendants
            (<[4 := c']> {[ 1 := electronicsRoot; 2 := phones ]}) 2 !! 4 = Some c'
       /\ forall a,
            In a (orEmpty (Category.ancestors phones)) ->
            Category.getDescendants
              (<[4 := c']> {[ 1 := electronicsRoot; 2 := phones ]}) a !! 4 = Some c'.
Proof.
  split; [reflexivity|]. split; [reflexivity|]. split; [reflexivity|].
  exact (category_saved_is_descendant asciiLowerCase createdWithParent
           {[ 1 := electronicsRoot; 2 := phones ]} cases 4 2 phones
           eq_refl eq_refl eq_refl).
Defined.

Lemma category_slug_given_once_witness :
  isModified createdWithName "name" = true
  /\ falsyStr (Category.slug electronicsDraft) = true
  /\ Slug.slugify asciiLowerCase (Category.name electronicsDraft) <> []
  /\ exists c1,
       Category.preSave asciiLowerCase createdWithName ∅ electronicsDraft = Next c1
       /\ Category.slug c1
          = Some (Slug.slugify asciiLowerCase (Category.name electronicsDraft))
       /\ forall st' categories' newName,
            exists c2,
              Category.preSave asciiLowerCase st' categories'
                (Category.setName newName c1) = Next c2
              /\ Category.slug c2 = Category.slug c1.
Proof.
  assert (Hne : Slug.slugify asciiLowerCase (Category.name electronicsDraft) <> [])
    by discriminate.
  split; [reflexivity|]. split; [reflexivity|]. split; [exact Hne|].
  exact (category_slug_given_once asciiLowerCase asciiLowerCase_slug_units
           createdWithName ∅ electronicsDraft eq_refl eq_refl Hne).
Defined.

Lemma post_slugs_differ_by_time_witness :
  isModified createdPost "title" = true
  /\ falsyStr (Post.slug helloDraft) = true
  /\ exists p1' p2',
       Post.preSave asciiLowerCase createdPost saveTime helloDraft = Next p1'
       /\ Post.preSave asciiLowerCase createdPost (saveTime + 1) helloDraft = Next p2'
       /\ (Post.slug p1' = Post.slug p2' <-> saveTime = (saveTime + 1)%Z).
Proof.
  split; [reflexivity|]. split; [reflexivity|].
  exact (post_slugs_differ_by_time asciiLowerCase asciiLowerCase_slug_units
           createdPost createdPost saveTime (saveTime + 1) helloDraft helloDraft
           eq_refl eq_refl eq_refl eq_refl eq_refl).
Defined.

Lemma post_readTime_bounds_witness :
  isModified createdPost "content" = true
  /\ Post.content helloDraft = Some (Post.castContent (lit "  hello brave new world "))
  /\ Post.validate helloDraft = None
  /\ exists p',
       save Post.validate (Post.preSave asciiLowerCase createdPost saveTime)
         helloDraft = Next p'
       /\ Post.content p' = Post.content helloDraft
       /\ (1 <= Post.Stats.readTime (Post.stats p'))%Z
       /\ (Post.wordCount helloDraft <= 200 * Post.Stats.readTime (Post.stats p')
           < Post.wordCount helloDraft + 200)%Z.
Proof.
  split; [reflexivity|]. split; [reflexivity|]. split; [reflexivity|].
  exact (post_readTime_bounds asciiLowerCase createdPost saveTime helloDraft
           (lit "  hello brave new world ") eq_refl eq_refl eq_refl).
Defined.

Lemma post_resave_unmodified_witness :
  modifiedPaths unmodified = []
  /\ exists p',
       Post.preSave asciiLowerCase createdPost saveTime helloDraft = Next p'
       /\ Post.preSave asciiLowerCase unmodified (saveTime + 60000) p' = Next p'.
Proof.
  split; [reflexivity|].
  exact (post_resave_unmodified asciiLowerCase createdPost unmodified saveTime
           (saveTime + 60000) helloDraft eq_refl).
Defined.

Lemma order_number_required_on_save_witness :
  save Order.validate (Order.preSave createdOrder saveTime (lit "K3J9X2M1Q"))
    (unnumberedOrder [item 2; item 3])
  = NextError (ValidationError required_field)
  /\ exists o',
       save Order.validate (Order.preSave createdOrder saveTime (lit "K3J9X2M1Q"))
         (newOrder [item 2; item 3])
       = Next o'
       /\ falsyStr (Order.orderNumber (newOrder [item 2; item 3])) = false
       /\ Order.orderNumber o' = Order.orderNumber (newOrder [item 2; item 3]).
Proof.
  split.
  - exact (proj1 (order_number_required_on_save createdOrder saveTime
                    (lit "K3J9X2M1Q") (unnumberedOrder [item 2; item 3]))
                 eq_refl).
  - eexists. split; [reflexivity|].
    exact (proj2 (order_number_required_on_save createdOrder saveTime
                    (lit "K3J9X2M1Q") (newOrder [item 2; item 3]))
                 _ eq_refl).
Defined.

Lemma order_itemCount_covers_items_witness :
  Order.validate (newOrder [item 2; item 3]) = None
  /\ Order.exactQuantity (orEmpty (Order.items (newOrder [item 2; item 3])))
     = Some 5%Z
  /\ (5 <= 2 ^ 53)%Z
  /\ exists o',
       save Order.validate (Order.preSave createdOrder saveTime (lit "K3J9X2M1Q"))
         (newOrder [item 2; item 3])
       = Next o'
       /\ Order.items o' = Order.items (newOrder [item 2; item 3])
       /\ integerValue (Order.itemCount o') = Some 5%Z
       /\ (Z.of_nat (length (orEmpty (Order.items (newOrder [item 2; item 3]))))
           <= 5)%Z
       /\ (5%Z = 0%Z <-> orEmpty (Order.items (newOrder [item 2; item 3])) = []).
Proof.
  assert (Hb : (5 <= 2 ^ 53)%Z) by (intros H; discriminate H).
  split; [reflexivity|]. split; [reflexivity|]. split; [exact Hb|].
  exact (order_itemCount_covers_items createdOrder saveTime (lit "K3J9X2M1Q")
           (newOrder [item 2; item 3]) 5%Z eq_refl eq_refl Hb).
Defined.

(** Run on its own on a new Order without an order number, the hook makes
    one from the clock and the random text; no save reaches that branch. *)
Example order_number_generated_by_hook :
  exists o',
    Order.preSave createdOrder saveTime (lit "K3J9X2M1Q")
      (unnumberedOrder [item 2; item 3])
    = Next o'
    /\ Order.orderNumber o' = Some (lit "ORD-1700000000000-K3J9X2M1Q").
Proof. eexists. split; reflexivity. Qed.

(** The validators of an item: a quantity below 1 is rejected, a quantity
    that is not whole is not. *)
Example order_quantity_below_one :
  save Order.validate (Order.preSave createdOrder saveTime (lit "K3J9X2M1Q"))
    (newOrder [item 2; item 0.5])
  = NextError (ValidationError range_bound)
  /\ exists o',
       save Order.validate (Order.preSave createdOrder saveTime (lit "K3J9X2M1Q"))
         (newOrder [item 2; item 1.5])
       = Next o'
       /\ Order.itemCount o' = 3.5%float
       /\ integerValue (Order.itemCount o') = None.
Proof. split; [reflexivity|]. eexists. repeat split. Qed.

Lemma summerTag_created :
  Tag.findOrCreate asciiLowerCase ∅ 5 (lit " Summer Sale! ") Tag.general
  = Next (summerTag, {[ 5 := summerTag ]}).
Proof. reflexivity. Qed.

Lemma tag_findOrCreate_result_witness :
  Slug.slugify asciiLowerCase (lit " Summer Sale! ") <> []
  /\ Tag.findOrCreate asciiLowerCase ∅ 5 (lit " Summer Sale! ") Tag.general
     = Next (summerTag, {[ 5 := summerTag ]})
  /\ Tag.slug summerTag = Some (Slug.slugify asciiLowerCase (lit " Summer Sale! "))
  /\ (exists id, ({[ 5 := summerTag ]} : gmap ObjectId Tag.t) !! id = Some summerTag)
  /\ (forall id, id <> 5 ->
        ({[ 5 := summerTag ]} : gmap ObjectId Tag.t) !! id
        = (∅ : gmap ObjectId Tag.t) !! id).
Proof.
  assert (Hne : Slug.slugify asciiLowerCase (lit " Summer Sale! ") <> [])
    by discriminate.
  split; [exact Hne|]. split; [exact summerTag_created|].
  exact (tag_findOrCreate_result asciiLowerCase asciiLowerCase_slug_units ∅ 5
           (lit " Summer Sale! ") Tag.general summerTag {[ 5 := summerTag ]}
           Hne summerTag_created).
Defined.

Lemma tag_findOrCreate_idempotent_witness :
  Slug.slugify asciiLowerCase (lit " Summer Sale! ") <> []
  /\ Slug.slugify asciiLowerCase (lit "summer  SALE")
     = Slug.slugify asciiLowerCase (lit " Summer Sale! ")
  /\ Tag.findOrCreate asciiLowerCase ∅ 5 (lit " Summer Sale! ") Tag.general
     = Next (summerTag, {[ 5 := summerTag ]})
  /\ Tag.findOrCreate asciiLowerCase {[ 5 := summerTag ]} 6 (lit "summer  SALE")
       Tag.post_tag
     = Next (summerTag, {[ 5 := summerTag ]}).
Proof.
  assert (Hne : Slug.slugify asciiLowerCase (lit " Summer Sale! ") <> [])
    by discriminate.
  split; [exact Hne|]. split; [reflexivity|]. split; [exact summerTag_created|].
  exact (tag_findOrCreate_idempotent asciiLowerCase asciiLowerCase_slug_units ∅ 5 6
           (lit " Summer Sale! ") (lit "summer  SALE") Tag.general Tag.post_tag
           summerTag {[ 5 := summerTag ]} Hne eq_refl summerTag_created).
Defined.

Lemma user_fullName_witness :
  trim (lit "Ada") = lit "Ada" /\ lit "Ada" <> []
  /\ trim (lit "Lovelace") = lit "Lovelace" /\ lit "Lovelace" <> []
  /\ User.fullName (Some {| User.Profile.firstName := Some (lit "Ada");
                            User.Profile.lastName := Some (lit "Lovelace") |})
     = lit "Ada" ++ [32] ++ lit "Lovelace"
  /\ User.fullName (Some {| User.Profile.firstName := Some (lit "Ada");
                            User.Profile.lastName := None |}) = lit "Ada"
  /\ User.fullName (Some {| User.Profile.firstName := None;
                            User.Profile.lastName := Some (lit "Lovelace") |})
     = lit "Lovelace"
  /\ User.fullName (Some {| User.Profile.firstName := None;
                            User.Profile.lastName := None |}) = []
  /\ User.fullName None = [].
Proof.
  assert (H1 : lit "Ada" <> []) by discriminate.
  assert (H2 : lit "Lovelace" <> []) by discriminate.
  split; [reflexivity|]. split; [exact H1|].
  split; [reflexivity|]. split; [exact H2|].
  exact (user_fullName (lit "Ada") (lit "Lovelace") eq_refl H1 eq_refl H2).
Defined.
